(** * tbgp: prefix algebra, LPM trie, BGP message decoder and peer FSM

    A shallow embedding of the Go sources of taktv6/tbgp and the
    properties of its specification that were checked against it.

    Conventions.  Go's fixed-width unsigned integers are integers [Z]
    with the wrap-around written out ([u8], [u16], [u32]).  A nil
    pointer is [None].  The trie is a tree of owned nodes (the Go code
    never shares a node between two parents), so in-place updates are
    functional updates of the record. *)

From Stdlib Require Import ZArith List Bool Lia.
From Stdlib.Strings Require Import String Byte.
Import ListNotations.
Open Scope Z_scope.

(** ** Fixed-width arithmetic *)

Definition u8 (x : Z) : Z := x mod 256.
Definition u16 (x : Z) : Z := x mod 65536.
Definition u32 (x : Z) : Z := x mod 4294967296.

(** [x << s] and [x >> s] on a [uint32] with an unsigned shift count:
    bits shifted out are lost, a count of 32 or more gives 0. *)
Definition shl32 (x s : Z) : Z := u32 (Z.shiftl x s).
Definition shr32 (x s : Z) : Z := Z.shiftr x s.

(** ** package net: IPv4 prefixes *)

Module Net.

Record Prefix := NewPfx { Addr : Z; Pfxlen : Z }.


(** [*pfx == *x] *)
Definition Equal (pfx x : Prefix) : bool :=
  (Addr pfx =? Addr x) && (Pfxlen pfx =? Pfxlen x).

(** [Contains]: the mask is the single bit [1 << (32 - pfxlen)]. *)
Definition Contains (pfx x : Prefix) : bool :=
  if Pfxlen x <=? Pfxlen pfx then false
  else
    let mask := shl32 1 (u8 (32 - Pfxlen pfx)) in
    Z.land (Addr pfx) mask =? Z.land (Addr x) mask.

Definition min (a b : Z) : Z := if a <? b then a else b.

(** The loop [for a != b { a >>= 1; b >>= 1; maxPfxLen-- }].  [fuel]
    bounds the number of iterations; [supernet_loop_fuel] shows that
    32 are never exhausted on 32-bit operands. *)
Fixpoint supernet_loop (fuel : nat) (a b maxPfxLen : Z) : Z * Z * Z :=
  if a =? b then (a, b, maxPfxLen)
  else match fuel with
       | O => (a, b, maxPfxLen)
       | S f => supernet_loop f (shr32 a 1) (shr32 b 1) (u8 (maxPfxLen - 1))
       end.

Definition GetSupernet (pfx x : Prefix) : Prefix :=
  let maxPfxLen := u8 (min (Pfxlen pfx) (Pfxlen x) - 1) in
  let a := shr32 (Addr pfx) (u8 (32 - maxPfxLen)) in
  let b := shr32 (Addr x) (u8 (32 - maxPfxLen)) in
  let '(a, _, maxPfxLen) := supernet_loop 32 a b maxPfxLen in
  {| Addr := shl32 a (u8 (32 - maxPfxLen)); Pfxlen := maxPfxLen |}.

(** The containment relation in the words of the specification: [x] is
    strictly longer and the top [pfxlen] bits of both addresses agree. *)
Definition contains_spec (pfx x : Prefix) : Prop :=
  Pfxlen x > Pfxlen pfx /\
  shr32 (Addr x) (32 - Pfxlen pfx) = shr32 (Addr pfx) (32 - Pfxlen pfx).

End Net.

(** ** package lpm: the trie *)

Module LPM.
Import Net.

#[local] Unset Elimination Schemes.
Inductive node : Type :=
  Node { skip : Z; dummy : bool; pfx : Prefix; l : option node; h : option node }.

#[local] Set Elimination Schemes.

(** [LPM.root]; the [nodes] counter is never written by the code. *)
Record LPM := mkLPM { root : option node }.

Definition New : LPM := {| root := None |}.

Definition newNode (p : Prefix) (sk : Z) (d : bool) : node :=
  {| skip := sk; dummy := d; pfx := p; l := None; h := None |}.

Definition set_skip (n : node) (sk : Z) : node :=
  {| skip := sk; dummy := dummy n; pfx := pfx n; l := l n; h := h n |}.
Definition set_l (n : node) (c : option node) : node :=
  {| skip := skip n; dummy := dummy n; pfx := pfx n; l := c; h := h n |}.
Definition set_h (n : node) (c : option node) : node :=
  {| skip := skip n; dummy := dummy n; pfx := pfx n; l := l n; h := c |}.

Definition getBitUint32 (x pos : Z) : bool :=
  negb (Z.land x (shl32 1 (u8 (32 - pos))) =? 0).

(** [n.lpm(needle, &res)]: the result slice is threaded through. *)
Fixpoint lpm (n : node) (needle : Prefix) (res : list Prefix) : list Prefix :=
  let lpm' (c : option node) (res : list Prefix) :=
    match c with None => res | Some c => lpm c needle res end in
  match n with
  | Node _ d p lo hi =>
    if Equal p needle && negb d then res ++ [p]
    else if negb (Contains p needle) then res
    else
      let res := if negb d then res ++ [p] else res in
      lpm' hi (lpm' lo res)
  end.

Definition LPM_ (t : LPM) (p : Prefix) : list Prefix :=
  match root t with
  | None => []
  | Some r => lpm r p []
  end.

(** [n.dumpPfxs(res)] on a non-nil receiver. *)
Fixpoint dumpPfxs (n : node) (res : list Prefix) : list Prefix :=
  match n with
  | Node _ d p lo hi =>
    let res := if negb d then res ++ [p] else res in
    let res := match lo with Some c => dumpPfxs c res | None => res end in
    match hi with Some c => dumpPfxs c res | None => res end
  end.

(** [dumpPfxs] on a possibly nil receiver: nil gives nil. *)
Definition dumpPfxs_opt (n : option node) (res : list Prefix) : list Prefix :=
  match n with
  | None => []
  | Some n => dumpPfxs n res
  end.

(** [n.get(pfx)] *)
Fixpoint get (n : node) (p : Prefix) : option node :=
  match n with
  | Node _ d q lo hi =>
    if Equal q p then (if d then None else Some n)
    else if Pfxlen q >? Pfxlen p then None
    else
      let b := getBitUint32 (Addr p) (u8 (Pfxlen q + 1)) in
      if negb b
      then match lo with None => None | Some c => get c p end
      else match hi with None => None | Some c => get c p end
  end.

Definition Get (t : LPM) (p : Prefix) (moreSpecifics : bool) : list Prefix :=
  match root t with
  | None => []
  | Some r =>
    let node := get r p in
    if moreSpecifics then dumpPfxs_opt node []
    else match node with
         | None => []
         | Some n => [pfx n]
         end
  end.

(** [pseudoNode.insertChildren(old, new)]: the old node is placed
    first, the new leaf second, and takes the slot when both decision
    bits agree. *)
Definition insertChildren (n old : node) (new : Prefix) : node :=
  let old' := set_skip old (u8 (u8 (Pfxlen (pfx old) - Pfxlen (pfx n)) - 1)) in
  let n :=
    if negb (getBitUint32 (Addr (pfx old)) (u8 (Pfxlen (pfx n) + 1)))
    then set_l n (Some old') else set_h n (Some old') in
  let newN := newNode new (u8 (u8 (Pfxlen new - Pfxlen (pfx n)) - 1)) false in
  if negb (getBitUint32 (Addr new) (u8 (Pfxlen (pfx n) + 1)))
  then set_l n (Some newN) else set_h n (Some newN).

Definition newSuperNode (n : node) (p : Prefix) : node :=
  let superNet := GetSupernet p (pfx n) in
  let pfxLenDiff := u8 (Pfxlen (pfx n) - Pfxlen superNet) in
  let sk := u8 (skip n - pfxLenDiff) in
  let pseudoNode := newNode superNet sk true in
  insertChildren pseudoNode n p.

Definition insertBefore (n : node) (p : Prefix) (parentPfxLen : Z) : node :=
  let pfxLenDiff := u8 (Pfxlen (pfx n) - Pfxlen p) in
  let sk := u8 (skip n - pfxLenDiff) in
  let new := newNode p sk false in
  let tmp := set_skip n (u8 (u8 (Pfxlen (pfx n) - Pfxlen p) - 1)) in
  if negb (getBitUint32 (Addr p) parentPfxLen)
  then set_l new (Some tmp) else set_h new (Some tmp).

(** [insertLow] and [insertHigh] call back into [insert]; the recursive
    call is the parameter [ins]. *)
Definition insertLow (ins : node -> Prefix -> node)
    (n : node) (lo : option node) (p : Prefix) (parentPfxLen : Z) : node :=
  match lo with
  | None => set_l n (Some (newNode p (u8 (u8 (Pfxlen p - parentPfxLen) - 1)) false))
  | Some c => set_l n (Some (ins c p))
  end.

Definition insertHigh (ins : node -> Prefix -> node)
    (n : node) (hi : option node) (p : Prefix) (parentPfxLen : Z) : node :=
  match hi with
  | None => set_h n (Some (newNode p (u8 (u8 (Pfxlen p - parentPfxLen) - 1)) false))
  | Some c => set_h n (Some (ins c p))
  end.

Fixpoint insert (n : node) (p : Prefix) {struct n} : node :=
  match n with
  | Node sk d q lo hi =>
    if Equal q p then n
    else if negb (Contains q p) then
      if Contains p q
      then insertBefore n p (u8 (u8 (Pfxlen q - sk) - 1))
      else newSuperNode n p
    else
      let b := getBitUint32 (Addr p) (u8 (Pfxlen q + 1)) in
      if negb b
      then insertLow insert n lo p (Pfxlen q)
      else insertHigh insert n hi p (Pfxlen q)
  end.

Definition Insert (t : LPM) (p : Prefix) : LPM :=
  match root t with
  | None => {| root := Some (newNode p (Pfxlen p) false) |}
  | Some r => {| root := Some (insert r p) |}
  end.

(** Inserting a sequence of prefixes, first to last, into an empty trie. *)
Definition InsertAll (ps : list Prefix) : LPM := fold_left Insert ps New.

(** The real (non-dummy) prefixes of a subtree in pre-order: the node,
    its low subtree, its high subtree. *)
Fixpoint reals (n : node) : list Prefix :=
  match n with
  | Node _ d p lo hi =>
    (if d then [] else [p])
    ++ match lo with Some c => reals c | None => [] end
    ++ match hi with Some c => reals c | None => [] end
  end.


(** [subtree n m]: [n] is [m] or a descendant of [m]. *)
Inductive subtree (n : node) : node -> Prop :=
| subtree_refl : subtree n n
| subtree_l m c : l m = Some c -> subtree n c -> subtree n m
| subtree_h m c : h m = Some c -> subtree n c -> subtree n m.

End LPM.



(** ** package packet: the message decoder *)

Module Packet.

Definition OctetLen := 8.
Definition MarkerLen := 16.
Definition MinLen := 19.
Definition MaxLen := 4096.

Definition OpenMsg := 1.
Definition UpdateMsg := 2.
Definition NotificationMsg := 3.
Definition KeepaliveMsg := 4.

Definition MessageHeaderError := 1.
Definition OpenMessageError := 2.
Definition UpdateMessageError := 3.
Definition HoldTimeExpired := 4.
Definition FiniteStateMachineError := 5.
Definition Cease := 6.

Definition ConnectionNotSync := 1.
Definition BadMessageLength := 2.
Definition BadMessageType := 3.

Definition UnsupportedVersionNumber := 1.
Definition BadBGPIdentifier := 3.
Definition DeprecatedOpenMsgError5 := 5.
Definition UnacceptableHoldTime := 6.

Definition DeprecatedUpdateMsgError7 := 7.
Definition MalformedASPath := 11.

Definition OriginAttr := 1.
Definition ASPathAttr := 2.
Definition NextHopAttr := 3.
Definition MEDAttr := 4.
Definition LocalPrefAttr := 5.
Definition AtomicAggrAttr := 6.
Definition AggregatorAttr := 7.

Definition ASSet := 1.
Definition ASSequence := 2.

Definition BGP4Version := 4.

(** Go [error] values.  [BGPError] is the struct the decoder returns
    for protocol violations; [errorString] stands for the values built
    by [fmt.Errorf] and the [io] errors (their text is abbreviated: no
    claim depends on it).  [outOfFuel] is not a Go value: it marks a
    loop of this model that was given too little fuel. *)
Inductive error : Type :=
| BGPError (ErrorCode ErrorSubCode : Z) (ErrorStr : string)
| errorString (s : string)
| outOfFuel.

(** The outcome of a call: a value, an error, or a run-time panic. *)
Inductive result (A : Type) : Type :=
| Ok (a : A)
| Err (e : error)
| Panic.
Arguments Ok {A} a.
Arguments Err {A} e.
Arguments Panic {A}.

(** A decoder reads from a [bytes.Buffer]: it returns its outcome and
    the unread rest of the buffer. *)
Definition Dec (A : Type) : Type := list byte -> result A * list byte.

Definition ret {A} (a : A) : Dec A := fun buf => (Ok a, buf).
Definition fail {A} (e : error) : Dec A := fun buf => (Err e, buf).
Definition bind {A B} (m : Dec A) (f : A -> Dec B) : Dec B :=
  fun buf =>
    match m buf with
    | (Ok a, buf') => f a buf'
    | (Err e, buf') => (Err e, buf')
    | (Panic, buf') => (Panic, buf')
    end.
(** [if err != nil { return ..., fmt.Errorf(msg, err) }] *)
Definition wrap {A} (msg : string) (m : Dec A) : Dec A :=
  fun buf =>
    match m buf with
    | (Err outOfFuel, buf') => (Err outOfFuel, buf')
    | (Err _, buf') => (Err (errorString msg), buf')
    | r => r
    end.

Declare Scope dec_scope.
Delimit Scope dec_scope with dec.
Notation "x <- m ;; k" := (bind m (fun x => k))
  (at level 61, m at next level, right associativity) : dec_scope.
Notation "m ;;; k" := (bind m (fun _ => k))
  (at level 61, right associativity) : dec_scope.
Open Scope dec_scope.

Definition byteZ (b : byte) : Z := Z.of_N (Byte.to_N b).

(** The first [n] bytes of the buffer and the rest, if there are [n]. *)
Fixpoint take (n : nat) (buf : list byte) : option (list byte * list byte) :=
  match n with
  | O => Some ([], buf)
  | S n' =>
    match buf with
    | [] => None
    | b :: buf' =>
      match take n' buf' with
      | Some (bs, rest) => Some (b :: bs, rest)
      | None => None
      end
    end
  end.

(** [binary.Read] of [n] bytes, as [decode] calls it: [io.ReadFull]
    drains the buffer when fewer than [n] bytes are left, and [decode]
    wraps the failure. *)
Definition readFull (n : nat) : Dec (list byte) :=
  fun buf =>
    match take n buf with
    | Some (bs, rest) => (Ok bs, rest)
    | None => (Err (errorString "Unable to read from buffer"), [])
    end.

Definition decode_uint8 : Dec Z :=
  bs <- readFull 1 ;;
  match bs with
  | [b] => ret (byteZ b)
  | _ => ret 0
  end.

Definition decode_byte : Dec byte :=
  bs <- readFull 1 ;;
  match bs with
  | [b] => ret b
  | _ => ret x00
  end.

Definition decode_uint16 : Dec Z :=
  bs <- readFull 2 ;;
  match bs with
  | [b1; b0] => ret (byteZ b1 * 256 + byteZ b0)
  | _ => ret 0
  end.

Definition decode_uint32 : Dec Z :=
  bs <- readFull 4 ;;
  match bs with
  | [b3; b2; b1; b0] =>
    ret (((byteZ b3 * 256 + byteZ b2) * 256 + byteZ b1) * 256 + byteZ b0)
  | _ => ret 0
  end.

(** [buf.Read(p)] with [len(p) = n > 0]: [io.EOF] on an empty buffer,
    otherwise the bytes available, at most [n]. *)
Definition bufRead (n : nat) : Dec (list byte) :=
  fun buf =>
    match buf with
    | [] => (Err (errorString "EOF"), [])
    | _ => (Ok (firstn n buf), skipn n buf)
    end.

Record BGPHeader := { Length : Z; Type_ : Z }.

Record BGPOpen := {
  Version : Z; AS : Z; HoldTime : Z; BGPIdentifier : Z; OptParmLen : Z }.

Record BGPNotification := { ErrorCode : Z; ErrorSubcode : Z }.

(** One element of the linked list of NLRIs; [IP] is the [[4]byte]. *)
Record NLRI := { IP : list byte; Pfxlen : Z }.

Record ASPathSegment := { SegType : Z; Count : Z; ASNs : list Z }.

Inductive AttrValue : Type :=
| NoValue
| OriginValue (o : Z)
| ASPathValue (segs : list ASPathSegment)
| NextHopValue (addr : list byte)
| Uint32Value (v : Z)
| AggregatorValue (ASN : Z) (addr : list byte).

Record PathAttribute := {
  PALength : Z;
  Optional : bool;
  Transitive : bool;
  Partial : bool;
  ExtendedLength : bool;
  TypeCode : Z;
  Value : AttrValue }.

Record BGPUpdate := {
  WithdrawnRoutesLen : Z;
  WithdrawnRoutes : list NLRI;
  TotalPathAttrLen : Z;
  PathAttributes : list PathAttribute;
  NLRIs : list NLRI }.

Inductive Body : Type :=
| BodyOpen (m : BGPOpen)
| BodyUpdate (m : BGPUpdate)
| BodyNotification (m : BGPNotification)
| BodyNil.

Record BGPMessage := { Header : BGPHeader; MsgBody : Body }.

(** *** NLRI *)

(** [uint8(math.Ceil(float64(pfxlen) / float64(OctetLen)))] *)
Definition ceilOctets (pfxlen : Z) : Z := u8 ((pfxlen + (OctetLen - 1)) / OctetLen).

(** The loop [for i < net.IPv4len % OctetLen] of [decodeNLRI], from
    index [i] on, [n] indices left: a byte is read for [i < toCopy],
    and 0 is stored otherwise. *)
Fixpoint decodeNLRI_addr (n : nat) (i toCopy : Z) : Dec (list byte) :=
  match n with
  | O => ret []
  | S n' =>
    b <- (if i <? toCopy then decode_byte else ret x00) ;;
    rest <- decodeNLRI_addr n' (u8 (i + 1)) toCopy ;;
    ret (b :: rest)
  end.

(** [decodeNLRI]: the NLRI and the number of bytes it reports as
    consumed. *)
Definition decodeNLRI : Dec (NLRI * Z) :=
  pfxlen <- decode_uint8 ;;
  let toCopy := ceilOctets pfxlen in
  addr <- decodeNLRI_addr (Z.to_nat (4 mod OctetLen)) 0 toCopy ;;
  ret ({| IP := addr; Pfxlen := pfxlen |}, u8 (toCopy + 1)).

(** The loop [for p < length] of [decodeNLRIs], from the count [p] on:
    the linked list is built in the order of decoding. *)
Fixpoint decodeNLRIs_loop (fuel : nat) (length p : Z) : Dec (list NLRI) :=
  if p <? length then
    match fuel with
    | O => fail outOfFuel
    | S fuel' =>
      r <- wrap "Unable to decode NLRI" decodeNLRI ;;
      let '(nlri, consumed) := r in
      rest <- decodeNLRIs_loop fuel' length (u16 (p + consumed)) ;;
      ret (nlri :: rest)
    end
  else ret [].

(** Every iteration takes at least the length byte off the buffer, so
    one unit of fuel per byte left, plus one, is enough
    ([decodeNLRIs_fuel]). *)
Definition decodeNLRIs (length : Z) : Dec (list NLRI) :=
  fun buf => decodeNLRIs_loop (S (List.length buf)) length 0 buf.

(** *** Path attributes *)

Definition isOptional (x : Z) : bool := Z.land x 128 =? 128.
Definition isTransitive (x : Z) : bool := Z.land x 64 =? 64.
Definition isPartial (x : Z) : bool := Z.land x 32 =? 32.
Definition isExtendedLength (x : Z) : bool := Z.land x 16 =? 16.

Definition emptyPathAttribute : PathAttribute :=
  {| PALength := 0; Optional := false; Transitive := false; Partial := false;
     ExtendedLength := false; TypeCode := 0; Value := NoValue |}.

Definition setValue (pa : PathAttribute) (v : AttrValue) : PathAttribute :=
  {| PALength := PALength pa; Optional := Optional pa;
     Transitive := Transitive pa; Partial := Partial pa;
     ExtendedLength := ExtendedLength pa; TypeCode := TypeCode pa; Value := v |}.

Definition setTypeCode (pa : PathAttribute) (t : Z) : PathAttribute :=
  {| PALength := PALength pa; Optional := Optional pa;
     Transitive := Transitive pa; Partial := Partial pa;
     ExtendedLength := ExtendedLength pa; TypeCode := t; Value := Value pa |}.

Definition setPALength (pa : PathAttribute) (n : Z) : PathAttribute :=
  {| PALength := n; Optional := Optional pa;
     Transitive := Transitive pa; Partial := Partial pa;
     ExtendedLength := ExtendedLength pa; TypeCode := TypeCode pa;
     Value := Value pa |}.

Definition decodePathAttrFlags (pa : PathAttribute) : Dec PathAttribute :=
  flags <- decode_uint8 ;;
  ret {| PALength := PALength pa; Optional := isOptional flags;
         Transitive := isTransitive flags; Partial := isPartial flags;
         ExtendedLength := isExtendedLength flags;
         TypeCode := TypeCode pa; Value := Value pa |}.

(** [pa.setLength]: the attribute with its length, and the number of
    length bytes read. *)
Definition setLength (pa : PathAttribute) : Dec (PathAttribute * Z) :=
  if ExtendedLength pa then
    n <- decode_uint16 ;; ret (setPALength pa n, 2)
  else
    x <- decode_uint8 ;; ret (setPALength pa x, 1).

Definition dumpNBytes (n : Z) : Dec unit :=
  if n =? 0 then ret tt
  else (readFull (Z.to_nat n) ;;; ret tt).

(** [pa.decodeOrigin]: the caller ignores the error, but sees the value
    stored before [dumpNBytes] fails; the attribute is returned in both
    cases. *)
Definition decodeOrigin (pa : PathAttribute)
  : list byte -> (PathAttribute * option error) * list byte :=
  fun buf =>
    match decode_uint8 buf with
    | (Ok origin, buf') =>
      let pa := setValue pa (OriginValue origin) in
      match dumpNBytes (u16 (PALength pa - 1)) buf' with
      | (Err e, buf'') => ((pa, Some e), buf'')
      | (_, buf'') => ((pa, None), buf'')
      end
    | (Err e, buf') => ((pa, Some e), buf')
    | (Panic, buf') => ((pa, None), buf')
    end.

(** The inner loop [for i < segment.Count] of [decodeASPath]. *)
Fixpoint decodeASNs (count : nat) (p : Z) (asns : list Z) : Dec (Z * list Z) :=
  match count with
  | O => ret (p, asns)
  | S count' =>
    asn <- decode_uint16 ;;
    decodeASNs count' (u16 (p + 2)) (asns ++ [asn])
  end.

(** The loop [for p < pa.Length] of [decodeASPath]. *)
Fixpoint decodeASPath_loop (fuel : nat) (length p : Z)
  : Dec (list ASPathSegment) :=
  if p <? length then
    match fuel with
    | O => fail outOfFuel
    | S fuel' =>
      ty <- decode_uint8 ;;
      cnt <- decode_uint8 ;;
      let p := u16 (p + 2) in
      if negb (ty =? ASSet) && negb (ty =? ASSequence)
      then fail (errorString "Invalid AS Path segment type")
      else if cnt =? 0
      then fail (errorString "Invalid AS Path segment length")
      else
        r <- decodeASNs (Z.to_nat cnt) p [] ;;
        let '(p, asns) := r in
        rest <- decodeASPath_loop fuel' length p ;;
        ret ({| SegType := ty; Count := cnt; ASNs := asns |} :: rest)
    end
  else ret [].

Definition decodeASPath (pa : PathAttribute) : Dec PathAttribute :=
  fun buf =>
    (segs <- decodeASPath_loop (S (List.length buf)) (PALength pa) 0 ;;
     ret (setValue pa (ASPathValue segs))) buf.

Definition decodeNextHop (pa : PathAttribute) : Dec PathAttribute :=
  addr <- bufRead 4 ;;
  if negb (List.length addr =? 4)%nat
  then fail (errorString "Unable to read next hop")
  else
    dumpNBytes (u16 (PALength pa - 4)) ;;;
    ret (setValue pa (NextHopValue addr)).

Definition decodeUint32 (pa : PathAttribute) : Dec Z :=
  v <- decode_uint32 ;;
  wrap "dumpNBytes failed" (dumpNBytes (u16 (PALength pa - 4))) ;;;
  ret v.

Definition decodeMED (pa : PathAttribute) : Dec PathAttribute :=
  med <- wrap "Unable to recode local pref" (decodeUint32 pa) ;;
  ret (setValue pa (Uint32Value med)).

Definition decodeLocalPref (pa : PathAttribute) : Dec PathAttribute :=
  lpref <- wrap "Unable to recode local pref" (decodeUint32 pa) ;;
  ret (setValue pa (Uint32Value lpref)).

Definition decodeAggregator (pa : PathAttribute) : Dec PathAttribute :=
  asn <- decode_uint16 ;;
  addr <- bufRead 4 ;;
  if negb (List.length addr =? 4)%nat
  then fail (errorString "Unable to read aggregator IP")
  else
    dumpNBytes (u16 (PALength pa - 6)) ;;;
    ret (setValue pa (AggregatorValue asn addr)).

(** The [switch pa.TypeCode] of [decodePathAttrs]. *)
Definition decodePathAttrValue (pa : PathAttribute) : Dec PathAttribute :=
  if TypeCode pa =? OriginAttr then
    fun buf => let '((pa', _), buf') := decodeOrigin pa buf in (Ok pa', buf')
  else if TypeCode pa =? ASPathAttr then
    wrap "Failed to decode AS Path" (decodeASPath pa)
  else if TypeCode pa =? NextHopAttr then
    wrap "Failed to decode Next-Hop" (decodeNextHop pa)
  else if TypeCode pa =? MEDAttr then
    wrap "Failed to decode MED" (decodeMED pa)
  else if TypeCode pa =? LocalPrefAttr then
    wrap "Failed to decode local pref" (decodeLocalPref pa)
  else if TypeCode pa =? AtomicAggrAttr then
    ret pa
  else if TypeCode pa =? AggregatorAttr then
    wrap "Failed to decode Aggregator" (decodeAggregator pa)
  else fail (errorString "Invalid Attribute Type Code").

(** The loop [for p < tpal] of [decodePathAttrs]. *)
Fixpoint decodePathAttrs_loop (fuel : nat) (tpal p : Z)
  : Dec (list PathAttribute) :=
  if p <? tpal then
    match fuel with
    | O => fail outOfFuel
    | S fuel' =>
      pa <- wrap "Unable to get path attribute flags"
              (decodePathAttrFlags emptyPathAttribute) ;;
      let p := u16 (p + 1) in
      tc <- decode_uint8 ;;
      let pa := setTypeCode pa tc in
      let p := u16 (p + 1) in
      r <- setLength pa ;;
      let '(pa, n) := r in
      let p := u16 (p + n) in
      pa <- decodePathAttrValue pa ;;
      let p := u16 (p + PALength pa) in
      rest <- decodePathAttrs_loop fuel' tpal p ;;
      ret (pa :: rest)
    end
  else ret [].

Definition decodePathAttrs (tpal : Z) : Dec (list PathAttribute) :=
  fun buf => decodePathAttrs_loop (S (List.length buf)) tpal 0 buf.

(** *** UPDATE *)

(** [uint16(l) - 4 - uint16(msg.TotalPathAttrLen) - uint16(msg.WithdrawnRoutesLen)] *)
Definition nlriLen (l tpal wrl : Z) : Z := u16 (u16 (u16 (l - 4) - tpal) - wrl).

Definition decodeUpdateMsg (l : Z) : Dec BGPUpdate :=
  wrl <- decode_uint16 ;;
  withdrawn <- decodeNLRIs wrl ;;
  tpal <- decode_uint16 ;;
  attrs <- decodePathAttrs tpal ;;
  let nlriLen := nlriLen l tpal wrl in
  nlri <- (if nlriLen >? 0 then decodeNLRIs nlriLen else ret []) ;;
  ret {| WithdrawnRoutesLen := wrl; WithdrawnRoutes := withdrawn;
         TotalPathAttrLen := tpal; PathAttributes := attrs;
         NLRIs := nlri |}.

(** *** NOTIFICATION *)

Definition invalidErrCode {A} (n : BGPNotification) : Dec A :=
  fail (errorString "Invalid error sub code").

Definition _decodeNotificationMsg : Dec BGPNotification :=
  code <- decode_uint8 ;;
  sub <- decode_uint8 ;;
  let msg := {| ErrorCode := code; ErrorSubcode := sub |} in
  if code >? Cease then fail (errorString "Invalid error code")
  else if code =? MessageHeaderError then
    if (sub >? BadMessageType) || (sub =? 0) then invalidErrCode msg else ret msg
  else if code =? OpenMessageError then
    if (sub >? UnacceptableHoldTime) || (sub =? 0) || (sub =? DeprecatedOpenMsgError5)
    then invalidErrCode msg else ret msg
  else if code =? UpdateMessageError then
    if (sub >? MalformedASPath) || (sub =? 0) || (sub =? DeprecatedUpdateMsgError7)
    then invalidErrCode msg else ret msg
  else if code =? HoldTimeExpired then
    if negb (sub =? 0) then invalidErrCode msg else ret msg
  else if code =? FiniteStateMachineError then
    if negb (sub =? 0) then invalidErrCode msg else ret msg
  else if code =? Cease then
    if negb (sub =? 0) then invalidErrCode msg else ret msg
  else invalidErrCode msg.

Definition decodeNotificationMsg : Dec BGPNotification := _decodeNotificationMsg.

(** *** Header *)

(** [for i := range marker { if marker[i] != 255 ... }] *)
Definition markerOk (marker : list byte) : bool :=
  forallb (fun b => byteZ b =? 255) marker.

Definition _decodeHeader : Dec BGPHeader :=
  fun buf =>
    match bufRead (Z.to_nat MarkerLen) buf with
    | (Err _, buf') =>
      (Err (BGPError Cease 0 "Failed to read from buffer"), buf')
    | (Panic, buf') => (Panic, buf')
    | (Ok marker, buf') =>
      if negb (List.length marker =? Z.to_nat MarkerLen)%nat
      then (Err (BGPError Cease 0 "Unable to read marker"), buf')
      else if negb (markerOk marker)
      then (Err (BGPError MessageHeaderError ConnectionNotSync "Invalid marker"), buf')
      else
        match (len <- decode_uint16 ;; ty <- decode_uint8 ;; ret (len, ty)) buf' with
        | (Err _, buf'') =>
          (Err (BGPError Cease 0 "Unable to read from buffer"), buf'')
        | (Panic, buf'') => (Panic, buf'')
        | (Ok (len, ty), buf'') =>
          if (len <? MinLen) || (len >? MaxLen)
          then (Err (BGPError MessageHeaderError BadMessageLength
                       "Invalid length in BGP header"), buf'')
          else if (ty >? KeepaliveMsg) || (ty =? 0)
          then (Err (BGPError MessageHeaderError BadMessageType
                       "Invalid message type"), buf'')
          else (Ok {| Length := len; Type_ := ty |}, buf'')
        end
    end.

Definition decodeHeader : Dec BGPHeader := _decodeHeader.

(** *** OPEN, message bodies and [Decode] *)

Section Decode.

(** [convert.Uint32Byte] of the tflow2 library, which is not part of
    this repository: the four bytes of a [uint32]. *)
Variable Uint32Byte : Z -> list byte.

(** [net.IP.IsLoopback] and [net.IP.IsMulticast] on a 4-byte address. *)
Definition IsLoopback (addr : list byte) : bool := byteZ (nth 0 addr x00) =? 127.
Definition IsMulticast (addr : list byte) : bool :=
  Z.land (byteZ (nth 0 addr x00)) 240 =? 224.

Definition isValidIdentifier (id : Z) : bool :=
  let addr := Uint32Byte id in
  if IsLoopback addr then false
  else if IsMulticast addr then false
  else if byteZ (nth 0 addr x00) =? 0 then false
  else if (byteZ (nth 0 addr x00) =? 255) && (byteZ (nth 1 addr x00) =? 255)
          && (byteZ (nth 2 addr x00) =? 255) && (byteZ (nth 3 addr x00) =? 255)
  then false
  else true.

Definition validateOpen (msg : BGPOpen) : option error :=
  if negb (Version msg =? BGP4Version)
  then Some (BGPError OpenMessageError UnsupportedVersionNumber
               "Unsupported version number")
  else if negb (isValidIdentifier (BGPIdentifier msg))
  then Some (BGPError OpenMessageError BadBGPIdentifier "Invalid BGP identifier")
  else None.

(** [_decodeOpenMsg]: with an error of [validateOpen] (a [BGPError]) the
    message returned is nil. *)
Definition _decodeOpenMsg : Dec BGPOpen :=
  version <- decode_uint8 ;;
  as_ <- decode_uint16 ;;
  holdTime <- decode_uint16 ;;
  id <- decode_uint32 ;;
  optParmLen <- decode_uint8 ;;
  let msg := {| Version := version; AS := as_; HoldTime := holdTime;
                BGPIdentifier := id; OptParmLen := optParmLen |} in
  match validateOpen msg with
  | Some e => fail e
  | None => ret msg
  end.

(** [decodeOpenMsg] asserts the type of the message before it looks at
    the error: on the nil message of a failed validation the assertion
    that it is a pointer to a [BGPOpen] panics. *)
Definition decodeOpenMsg : Dec BGPOpen :=
  fun buf =>
    match _decodeOpenMsg buf with
    | (Err (BGPError _ _ _), buf') => (Panic, buf')
    | r => r
    end.

Definition decodeMsgBody (msgType l : Z) : Dec Body :=
  if msgType =? OpenMsg then m <- decodeOpenMsg ;; ret (BodyOpen m)
  else if msgType =? UpdateMsg then m <- decodeUpdateMsg l ;; ret (BodyUpdate m)
  else if msgType =? KeepaliveMsg then ret BodyNil
  else if msgType =? NotificationMsg
  then m <- decodeNotificationMsg ;; ret (BodyNotification m)
  else fail (errorString "Unknown message type").

(** [Decode]: both errors are rebuilt with [fmt.Errorf], so the caller
    never receives a [BGPError]. *)
Definition Decode : Dec BGPMessage :=
  hdr <- wrap "Failed to decode header" decodeHeader ;;
  body <- wrap "Failed to decode message"
            (decodeMsgBody (Type_ hdr) (u16 (Length hdr - MinLen))) ;;
  ret {| Header := hdr; MsgBody := body |}.

End Decode.

(** *** Serializers *)

(** [convert.Uint16Byte] and [convert.Uint32Byte] as the encoder uses
    them for the fields of the wire format, which are big-endian. *)
Definition be16 (x : Z) : list Z := [x / 256 mod 256; x mod 256].
Definition be32 (x : Z) : list Z :=
  [x / 16777216 mod 256; x / 65536 mod 256; x / 256 mod 256; x mod 256].

(** [encodeHeader]: sixteen 0xff, the length and the type. *)
Definition encodeHeader (length typ : Z) : list Z :=
  repeat 255 16 ++ be16 length ++ [typ].

Definition EncodeKeepaliveMsg : list Z := encodeHeader 19 KeepaliveMsg.

Definition EncodeNotificationMsg (msg : BGPNotification) : list Z :=
  encodeHeader 21 NotificationMsg ++ [ErrorCode msg; ErrorSubcode msg].

Definition EncodeOpenMsg (msg : BGPOpen) : list Z :=
  encodeHeader 29 OpenMsg
  ++ [Version msg] ++ be16 (AS msg) ++ be16 (HoldTime msg)
  ++ be32 (BGPIdentifier msg) ++ [0].

(** Modelled from the spec: [SerializeKeepaliveMsg],
    [SerializeNotificationMsg] and [SerializeOpenMsg], which the FSM
    calls, are missing from the sources.  The specification gives
    KEEPALIVE as the header only (length 19), NOTIFICATION as header,
    code and subcode (length 21) and OPEN as header and ten bytes
    (length 29), which is what the [Encode...] functions above, taken
    from the sources, produce. *)
Definition SerializeKeepaliveMsg : list Z := EncodeKeepaliveMsg.
Definition SerializeNotificationMsg (msg : BGPNotification) : list Z :=
  EncodeNotificationMsg msg.
Definition SerializeOpenMsg (msg : BGPOpen) : list Z := EncodeOpenMsg msg.

End Packet.

(** ** package server: the peer FSM *)

Module Server.
Import Net LPM Packet.

(** Administrative and timer events. *)
Definition ManualStart := 1.
Definition ManualStop := 2.
Definition AutomaticStart := 3.
Definition AutomaticStop := 8.

(** States. *)
Definition Cease := 0.
Definition Idle := 1.
Definition Connect := 2.
Definition Active := 3.
Definition OpenSent := 4.
Definition OpenConfirm := 5.
Definition Established := 6.

Definition BGPVersion := 4.

(** A [*net.TCPConn] is known by its identity; nil is [None]. *)
Definition conn := nat.

Inductive timer : Type := connectRetryTimer | holdTimer | keepaliveTimer.

(** What the FSM does to the outside world, in the order it does it. *)
Inductive effect : Type :=
| ConWrite (c : conn) (msg : list Z)
| ConClose (c : conn)
| TimerStop (t : timer)
| TimerReset (t : timer) (seconds : Z)
| TimerNew (t : timer) (seconds : Z)
| InitiateCon.

Record FSM := {
  stateReason : string;
  state : Z;
  lastState : Z;
  con : option conn;
  con2 : option conn;
  passive : bool;
  localASN : Z;
  neighborID : Z;
  routerID : Z;
  connectRetryTime : Z;
  connectRetryCounter : Z;
  holdTimeConfigured : Z;
  holdTime : Z;
  keepaliveTime : Z;
  adjRibIn : option LPM;
  effects : list effect }.

Definition do (f : FSM) (e : effect) : FSM :=
  {| stateReason := stateReason f; state := state f; lastState := lastState f;
     con := con f; con2 := con2 f; passive := passive f; localASN := localASN f;
     neighborID := neighborID f; routerID := routerID f;
     connectRetryTime := connectRetryTime f;
     connectRetryCounter := connectRetryCounter f;
     holdTimeConfigured := holdTimeConfigured f; holdTime := holdTime f;
     keepaliveTime := keepaliveTime f; adjRibIn := adjRibIn f;
     effects := effects f ++ [e] |}.

Definition set_con (f : FSM) (c : option conn) : FSM :=
  {| stateReason := stateReason f; state := state f; lastState := lastState f;
     con := c; con2 := con2 f; passive := passive f; localASN := localASN f;
     neighborID := neighborID f; routerID := routerID f;
     connectRetryTime := connectRetryTime f;
     connectRetryCounter := connectRetryCounter f;
     holdTimeConfigured := holdTimeConfigured f; holdTime := holdTime f;
     keepaliveTime := keepaliveTime f; adjRibIn := adjRibIn f;
     effects := effects f |}.

Definition set_con2 (f : FSM) (c : option conn) : FSM :=
  {| stateReason := stateReason f; state := state f; lastState := lastState f;
     con := con f; con2 := c; passive := passive f; localASN := localASN f;
     neighborID := neighborID f; routerID := routerID f;
     connectRetryTime := connectRetryTime f;
     connectRetryCounter := connectRetryCounter f;
     holdTimeConfigured := holdTimeConfigured f; holdTime := holdTime f;
     keepaliveTime := keepaliveTime f; adjRibIn := adjRibIn f;
     effects := effects f |}.

Definition set_connectRetryCounter (f : FSM) (n : Z) : FSM :=
  {| stateReason := stateReason f; state := state f; lastState := lastState f;
     con := con f; con2 := con2 f; passive := passive f; localASN := localASN f;
     neighborID := neighborID f; routerID := routerID f;
     connectRetryTime := connectRetryTime f;
     connectRetryCounter := n;
     holdTimeConfigured := holdTimeConfigured f; holdTime := holdTime f;
     keepaliveTime := keepaliveTime f; adjRibIn := adjRibIn f;
     effects := effects f |}.

Definition set_adjRibIn (f : FSM) (t : option LPM) : FSM :=
  {| stateReason := stateReason f; state := state f; lastState := lastState f;
     con := con f; con2 := con2 f; passive := passive f; localASN := localASN f;
     neighborID := neighborID f; routerID := routerID f;
     connectRetryTime := connectRetryTime f;
     connectRetryCounter := connectRetryCounter f;
     holdTimeConfigured := holdTimeConfigured f; holdTime := holdTime f;
     keepaliveTime := keepaliveTime f; adjRibIn := t;
     effects := effects f |}.

(** [fsm.changeState(new, reason)]; the new state is also what the state
    functions return. *)
Definition changeState (f : FSM) (new : Z) (reason : string) : FSM :=
  {| stateReason := reason; state := new; lastState := state f;
     con := con f; con2 := con2 f; passive := passive f; localASN := localASN f;
     neighborID := neighborID f; routerID := routerID f;
     connectRetryTime := connectRetryTime f;
     connectRetryCounter := connectRetryCounter f;
     holdTimeConfigured := holdTimeConfigured f; holdTime := holdTime f;
     keepaliveTime := keepaliveTime f; adjRibIn := adjRibIn f;
     effects := effects f |}.

(** [c.Close()]; closing a nil connection only returns an error. *)
Definition close (f : FSM) (c : option conn) : FSM :=
  match c with
  | Some c => do f (ConClose c)
  | None => f
  end.

Definition disconnect (f : FSM) : FSM :=
  let f := match con f with
           | Some c => set_con (do f (ConClose c)) None
           | None => f
           end in
  match con2 f with
  | Some c => set_con2 (do f (ConClose c)) None
  | None => f
  end.

Definition stopTimer (f : FSM) (t : timer) : FSM := do f (TimerStop t).

Definition resetConnectRetryTimer (f : FSM) : FSM :=
  do f (TimerReset connectRetryTimer (connectRetryTime f)).

Definition tcpConnect (f : FSM) : FSM := do f InitiateCon.

(** [sendNotification(c, errorCode, errorSubCode)]: the message that is
    serialized is the zero value [&packet.BGPNotification{}]; the two
    arguments are not used.  Its callers ignore the error it returns. *)
Definition sendNotification (f : FSM) (c : option conn)
    (errorCode errorSubCode : Z) : FSM :=
  match c with
  | None => f
  | Some c =>
    let msg := SerializeNotificationMsg {| ErrorCode := 0; ErrorSubcode := 0 |} in
    do f (ConWrite c msg)
  end.

(** [fsm.sendKeepalive()]; [wr] tells whether the write succeeds.  A
    write on a nil connection fails. *)
Definition sendKeepalive (f : FSM) (wr : bool) : FSM * bool :=
  match con f with
  | None => (f, false)
  | Some c => (do f (ConWrite c SerializeKeepaliveMsg), wr)
  end.

Definition sendOpen (f : FSM) (c : option conn) (wr : bool) : FSM * bool :=
  match c with
  | None => (f, false)
  | Some c =>
    let msg := SerializeOpenMsg
                 {| Version := BGPVersion; AS := localASN f;
                    HoldTime := u16 (holdTimeConfigured f);
                    BGPIdentifier := routerID f; OptParmLen := 0 |} in
    (do f (ConWrite c msg), wr)
  end.

(** What the FSM loop selects on. *)
Inductive input : Type :=
| InEvent (e : Z)
| InConnectRetryTimer
| InHoldTimer
| InKeepaliveTimer
| InCon (c : conn)
| InMsgRecv (msg : list byte) (c : conn)
| InMsgRecvFail (c : conn).

(** One turn of the [for { select { ... } }] loop of a state function:
    [continue], [return] of the next state, or a panic. *)
Inductive outcome : Type :=
| Continue (f : FSM)
| Return (next : Z) (f : FSM)
| Crash.

Definition returnState (f : FSM) (new : Z) (reason : string) : outcome :=
  Return new (changeState f new reason).

Definition activeSendOpen (f : FSM) (wr : bool) : outcome :=
  let '(f, ok) := sendOpen f (con f) wr in
  if negb ok then
    let f := resetConnectRetryTimer f in
    let f := set_connectRetryCounter f (connectRetryCounter f + 1) in
    returnState f Idle "Sending OPEN message failed"
  else
    let f := do f (TimerNew holdTimer 240) in
    returnState f OpenSent "Sent OPEN message".

(** One turn of [fsm.active()].  The inputs of the other channels are
    not selected on in this state: they stay pending. *)
Definition active (f : FSM) (i : input) (wr : bool) : outcome :=
  match i with
  | InEvent e =>
    if e =? ManualStop then
      let f := disconnect f in
      let f := set_connectRetryCounter f 0 in
      let f := stopTimer f connectRetryTimer in
      returnState f Active "Manual stop event"
    else Continue f
  | InConnectRetryTimer =>
    let f := resetConnectRetryTimer f in
    let f := tcpConnect f in
    returnState f Connect "Connect retry timer expired"
  | InCon c =>
    let f := set_con f (Some c) in
    let f := stopTimer f connectRetryTimer in
    activeSendOpen f wr
  | _ => Continue f
  end.

Definition openConfirmTCPFail (f : FSM) : outcome :=
  let f := close f (con f) in
  let f := resetConnectRetryTimer f in
  let f := set_connectRetryCounter f (connectRetryCounter f + 1) in
  returnState f Idle "Failure".

(** [stopTimer; fsm.con.Close(); fsm.connectRetryCounter++; Idle] *)
Definition teardown (f : FSM) (reason : string) : outcome :=
  let f := stopTimer f connectRetryTimer in
  let f := close f (con f) in
  let f := set_connectRetryCounter f (connectRetryCounter f + 1) in
  returnState f Idle reason.

Section Established.

(** Not part of the sources at hand: [convert.Uint32Byte] and
    [convert.Uint32b] of the tflow2 library, the method [LPM.Remove]
    and the constant [packet.ConnectionCollisionResolution]. *)
Variable Uint32Byte : Z -> list byte.
Variable Uint32b : list byte -> Z.
Variable Remove : LPM -> Prefix -> LPM.
Variable ConnectionCollisionResolution : Z.

Definition toPfx (r : NLRI) : Prefix := NewPfx (Uint32b (IP r)) (Pfxlen r).

(** [fsm.established()] before its loop. *)
Definition established_enter (f : FSM) : FSM := set_adjRibIn f (Some New).

(** The [UPDATE] case: withdrawn routes are removed, then the NLRIs are
    inserted. *)
Definition applyUpdate (t : LPM) (u : BGPUpdate) : LPM :=
  let t := fold_left (fun t r => Remove t (toPfx r)) (WithdrawnRoutes u) t in
  fold_left (fun t r => Insert t (toPfx r)) (NLRIs u) t.

(** One turn of the loop of [fsm.established()]. *)
Definition established (f : FSM) (i : input) (wr : bool) : outcome :=
  match i with
  | InEvent e =>
    if e =? ManualStop then
      let f := sendNotification f (con f) Packet.Cease 0 in
      let f := stopTimer f connectRetryTimer in
      let f := close f (con f) in
      let f := set_connectRetryCounter f 0 in
      returnState f Idle "Manual stop event"
    else if e =? AutomaticStop then
      let f := sendNotification f (con f) Packet.Cease 0 in
      teardown f "Automatic stop event"
    else Continue f
  | InConnectRetryTimer => Continue f
  | InHoldTimer =>
    let f := sendNotification f (con f) HoldTimeExpired 0 in
    teardown f "Holdtimer expired"
  | InKeepaliveTimer =>
    let '(f, ok) := sendKeepalive f wr in
    if negb ok then teardown f "Failed to send keepalive"
    else Continue (do f (TimerReset keepaliveTimer (keepaliveTime f)))
  | InCon c => Continue (do f (ConClose c))
  | InMsgRecv bytes c =>
    match Decode Uint32Byte bytes with
    | (Panic, _) => Crash
    | (Err err, _) =>
      let f := match err with
               | BGPError code sub _ => sendNotification f (con f) code sub
               | _ => f
               end in
      teardown f "Failed to decode BGP message"
    | (Ok msg, _) =>
      let ty := Type_ (Header msg) in
      if ty =? NotificationMsg then teardown f "Received NOTIFICATION"
      else if ty =? UpdateMsg then
        let f := if negb (holdTime f =? 0)
                 then do f (TimerReset holdTimer (holdTime f)) else f in
        match MsgBody msg, adjRibIn f with
        | BodyUpdate u, Some t => Continue (set_adjRibIn f (Some (applyUpdate t u)))
        | _, _ => Crash
        end
      else if ty =? KeepaliveMsg then
        Continue (if negb (holdTime f =? 0)
                  then do f (TimerReset holdTimer (holdTime f)) else f)
      else if (ty =? OpenMsg) && (match con2 f with Some _ => true | None => false end)
      then
        let f := sendNotification f (con2 f) Packet.Cease ConnectionCollisionResolution in
        let f := close f (con2 f) in
        Continue (set_con2 f None)
      else
        let f := sendNotification f (con f) FiniteStateMachineError 0 in
        teardown f "FSM Error"
    end
  | InMsgRecvFail c =>
    match con f, con2 f with
    | Some c1, Some c2 =>
      if (c =? c1)%nat then
        Continue (set_con2 (set_con (do f (ConClose c1)) (Some c2)) None)
      else if (c =? c2)%nat then
        Continue (set_con2 (do f (ConClose c2)) None)
      else openConfirmTCPFail f
    | None, Some c2 =>
      if (c =? c2)%nat then
        Continue (set_con2 (do f (ConClose c2)) None)
      else openConfirmTCPFail f
    | _, None => openConfirmTCPFail f
    end
  end.

End Established.

End Server.

(** Byte literals for the examples. *)
Definition B (z : Z) : byte :=
  match Byte.of_N (Z.to_N z) with
  | Some b => b
  | None => x00
  end.

(** ** The validity table of NOTIFICATION codes, in the words of the
    specification *)

(** Code 1 permits subcodes 1 to 3; code 2 permits 1 to 6 except 5;
    code 3 permits 1 to 11 except 7; codes 4, 5 and 6 permit only 0. *)
Definition notification_valid (code sub : Z) : bool :=
  ((code =? 1) && (1 <=? sub) && (sub <=? 3))
  || ((code =? 2) && (1 <=? sub) && (sub <=? 6) && negb (sub =? 5))
  || ((code =? 3) && (1 <=? sub) && (sub <=? 11) && negb (sub =? 7))
  || (((code =? 4) || (code =? 5) || (code =? 6)) && (sub =? 0)).

(** ** NLRIs on the wire, in the words of the specification *)

(** The encoding of an NLRI: the length byte, then [ceil(pfxlen/8)]
    address octets. *)
Definition wire (x : Packet.NLRI) : list byte :=
  B (Packet.Pfxlen x)
  :: firstn (Z.to_nat (Packet.ceilOctets (Packet.Pfxlen x))) (Packet.IP x).

(** The 4-byte address is zero after its first [ceil(pfxlen/8)] bytes. *)
Definition padded (x : Packet.NLRI) : Prop :=
  List.length (Packet.IP x) = 4%nat /\
  skipn (Z.to_nat (Packet.ceilOctets (Packet.Pfxlen x))) (Packet.IP x)
    = repeat x00 (4 - Z.to_nat (Packet.ceilOctets (Packet.Pfxlen x))).

(** ** Example data *)

(** The header of the specification's scenario S4 with a spoiled marker. *)
Definition badMarkerMsg : list byte :=
  repeat (B 255) 15 ++ [B 2; B 0; B 19; B 4].

(** 13107 NLRIs 10.0.0.1/32: 65535 bytes. *)
Definition manyNLRIs : list byte :=
  List.concat (repeat [B 32; B 10; B 0; B 0; B 1] (Z.to_nat 13107)).

(** ** Properties of decoders used to justify the fuel of the loops *)

(** [nofuel m]: [m] never reports exhausted fuel. *)
Definition nofuel {A} (m : Packet.Dec A) : Prop :=
  forall buf, fst (m buf) <> Packet.Err Packet.outOfFuel.

(** [shrinks m]: [m] only takes bytes off the buffer. *)
Definition shrinks {A} (m : Packet.Dec A) : Prop :=
  forall buf, (List.length (snd (m buf)) <= List.length buf)%nat.

(** [consumes m]: when [m] succeeds it has taken at least one byte. *)
Definition consumes {A} (m : Packet.Dec A) : Prop :=
  forall buf a rest,
    m buf = (Packet.Ok a, rest) -> (List.length rest < List.length buf)%nat.

(** ** package server: the other states of the peer FSM *)

Module Peer.
Import Net LPM Packet Server.

Definition AutomaticStartWithPassiveTcpEstablishment := 5.

Definition set_neighborID (f : FSM) (id : Z) : FSM :=
  {| stateReason := stateReason f; state := state f; lastState := lastState f;
     con := con f; con2 := con2 f; passive := passive f; localASN := localASN f;
     neighborID := id; routerID := routerID f;
     connectRetryTime := connectRetryTime f;
     connectRetryCounter := connectRetryCounter f;
     holdTimeConfigured := holdTimeConfigured f; holdTime := holdTime f;
     keepaliveTime := keepaliveTime f; adjRibIn := adjRibIn f;
     effects := effects f |}.

Definition set_holdTime (f : FSM) (t : Z) : FSM :=
  {| stateReason := stateReason f; state := state f; lastState := lastState f;
     con := con f; con2 := con2 f; passive := passive f; localASN := localASN f;
     neighborID := neighborID f; routerID := routerID f;
     connectRetryTime := connectRetryTime f;
     connectRetryCounter := connectRetryCounter f;
     holdTimeConfigured := holdTimeConfigured f; holdTime := t;
     keepaliveTime := keepaliveTime f; adjRibIn := adjRibIn f;
     effects := effects f |}.

Definition set_keepaliveTime (f : FSM) (t : Z) : FSM :=
  {| stateReason := stateReason f; state := state f; lastState := lastState f;
     con := con f; con2 := con2 f; passive := passive f; localASN := localASN f;
     neighborID := neighborID f; routerID := routerID f;
     connectRetryTime := connectRetryTime f;
     connectRetryCounter := connectRetryCounter f;
     holdTimeConfigured := holdTimeConfigured f; holdTime := holdTime f;
     keepaliveTime := t; adjRibIn := adjRibIn f;
     effects := effects f |}.

(** [NewFSM(c)] with the fields of the configuration it reads; every
    peer is created passive.  The three timers are created in the order
    of the fields of the literal. *)
Definition NewFSM (HoldTimer KeepAlive RouterID LocalAS : Z) : FSM :=
  {| stateReason := EmptyString; state := Idle; lastState := 0;
     con := None; con2 := None; passive := true; localASN := u16 LocalAS;
     neighborID := 0; routerID := RouterID;
     connectRetryTime := 5; connectRetryCounter := 0;
     holdTimeConfigured := HoldTimer; holdTime := 0;
     keepaliveTime := KeepAlive; adjRibIn := None;
     effects := [TimerNew connectRetryTimer 20; TimerNew holdTimer 0;
                 TimerNew keepaliveTimer 0] |}.

Definition startConnectRetryTimer (f : FSM) : FSM :=
  do f (TimerNew connectRetryTimer (connectRetryTime f)).


(** One turn of the loop of [fsm.idle()]. *)
Definition idle (f : FSM) (i : input) : outcome :=
  match i with
  | InCon c => Continue (do f (ConClose c))
  | InEvent e =>
    if (e =? ManualStart) || (e =? AutomaticStart) then
      let f := set_connectRetryCounter f 0 in
      let f := startConnectRetryTimer f in
      if passive f then returnState f Active "Received start event for passive peer"
      else
        let f := tcpConnect f in
        returnState f Connect "Received start event for active peer"
    else Continue f
  | _ => Continue f
  end.


Definition connectSendOpen (f : FSM) (wr : bool) : outcome :=
  let '(f, ok) := sendOpen f (con f) wr in
  if negb ok then
    let f := stopTimer f connectRetryTimer in
    returnState f Idle "Sending OPEN message failed"
  else
    let f := do f (TimerNew holdTimer 240) in
    returnState f OpenSent "Sent OPEN message".

(** One turn of the loop of [fsm.connect()]. *)
Definition connect (f : FSM) (i : input) (wr : bool) : outcome :=
  match i with
  | InEvent e =>
    if e =? ManualStop then
      let f := set_connectRetryCounter f 0 in
      let f := stopTimer f connectRetryTimer in
      returnState f Idle "Manual stop event"
    else Continue f
  | InConnectRetryTimer =>
    let f := resetConnectRetryTimer f in
    Continue (tcpConnect f)
  | InCon c =>
    let f := set_con f (Some c) in
    let f := stopTimer f connectRetryTimer in
    connectSendOpen f wr
  | _ => Continue f
  end.

Definition openSentTCPFail (f : FSM) : outcome :=
  let f := close f (con f) in
  let f := resetConnectRetryTimer f in
  returnState f Active "TCP failure".

(** [stopTimer; fsm.disconnect(); fsm.connectRetryCounter++; Idle] *)
Definition teardownAll (f : FSM) (reason : string) : outcome :=
  let f := stopTimer f connectRetryTimer in
  let f := disconnect f in
  let f := set_connectRetryCounter f (connectRetryCounter f + 1) in
  returnState f Idle reason.

(** The [ManualStop] case of [openSent] and [openConfirm]. *)
Definition manualStop (f : FSM) : outcome :=
  let f := sendNotification f (con f) Packet.Cease 0 in
  let f := stopTimer f connectRetryTimer in
  let f := disconnect f in
  let f := set_connectRetryCounter f 0 in
  returnState f Idle "Manual stop event".

Section Collision.

(** Not part of the sources at hand: [convert.Uint32Byte] and the
    constant [packet.ConnectionCollisionResolution].  [localIs179 c]
    tells whether the local address of the connection [c], as the
    socket reports it, is the FSM's local address with port 179. *)
Variable Uint32Byte : Z -> list byte.
Variable ConnectionCollisionResolution : Z.
Variable localIs179 : conn -> bool.

(** [fsm.isPassive(c)]; on a nil connection [c.LocalAddr()] is nil and
    the call of [String] on it panics. *)
Definition isPassive (c : option conn) : option bool :=
  match c with
  | Some c => Some (localIs179 c)
  | None => None
  end.

(** The method [fsm.dumpCon(c)]: was this connection to be closed anyway? *)
Definition fsm_dumpCon (f : FSM) (c : conn) : bool :=
  let p := localIs179 c in
  if routerID f >? neighborID f then p else negb p.

(** The function [dumpCon(c)]. *)
Definition dumpCon (f : FSM) (c : option conn) : FSM :=
  let f := sendNotification f c Packet.Cease ConnectionCollisionResolution in
  close f c.

(** [fsm.resolveCollision()]; [None] is a panic. *)
Definition resolveCollision (f : FSM) : option FSM :=
  match con2 f with
  | None => Some f
  | Some c2 =>
    if routerID f >? neighborID f then
      match isPassive (con f) with
      | None => None
      | Some true => Some (set_con (dumpCon f (con f)) (con2 f))
      | Some false =>
        if localIs179 c2 then Some (dumpCon f (con2 f)) else Some f
      end
    else
      match isPassive (con f) with
      | None => None
      | Some false => Some (set_con (dumpCon f (con f)) (con2 f))
      | Some true =>
        if negb (localIs179 c2) then
          let f := dumpCon f (con2 f) in
          let f := close f (con2 f) in
          Some (set_con2 f None)
        else Some f
      end
  end.

(** The case [c := <-fsm.conCh] of [openSent] and [openConfirm]: a
    second connection.  The receiver goroutine started for it is not an
    effect of the model: what it reads arrives as [InMsgRecv] and
    [InMsgRecvFail]. *)
Definition secondConnection (f : FSM) (c : conn) (wr : bool) : outcome :=
  match con2 f with
  | Some _ => Continue (do f (ConClose c))
  | None =>
    let '(f, ok) := sendOpen f (Some c) wr in
    if negb ok then Continue (do f (ConClose c))
    else Continue (set_con2 f (Some c))
  end.

(** The case [err := <-fsm.msgRecvFailCh], with what the state does when
    the failed connection is the only one. *)
Definition receiveFailed (f : FSM) (c : conn) (fail : FSM -> outcome) : outcome :=
  match con f, con2 f with
  | Some c1, Some c2 =>
    if (c =? c1)%nat then
      Continue (set_con2 (set_con (do f (ConClose c1)) (Some c2)) None)
    else if (c =? c2)%nat then
      Continue (set_con2 (do f (ConClose c2)) None)
    else fail f
  | None, Some c2 =>
    if (c =? c2)%nat then
      Continue (set_con2 (do f (ConClose c2)) None)
    else fail f
  | _, None => fail f
  end.

(** The decode failure of [openSent] and [openConfirm]: a [BGPError] is
    notified on both connections. *)
Definition decodeFailed (f : FSM) (err : error) : outcome :=
  let f := match err with
           | BGPError code sub _ =>
             let f := sendNotification f (con f) code sub in
             sendNotification f (con2 f) code sub
           | _ => f
           end in
  teardownAll f "Failed to decode BGP message".

(** [time.Duration(math.Min(float64(configured), float64(received)))] *)
Definition negotiateHoldTime (configured received : Z) : Z :=
  Z.min configured received.

(** One turn of the loop of [fsm.openSent()]. *)
Definition openSent (f : FSM) (i : input) (wr : bool) : outcome :=
  match i with
  | InEvent e => if e =? ManualStop then manualStop f else Continue f
  | InHoldTimer =>
    let f := sendNotification f (con f) HoldTimeExpired 0 in
    teardownAll f "Holdtimer expired"
  | InCon c => secondConnection f c wr
  | InMsgRecv bytes c =>
    match Decode Uint32Byte bytes with
    | (Panic, _) => Crash
    | (Err err, _) => decodeFailed f err
    | (Ok msg, _) =>
      let ty := Type_ (Header msg) in
      if ty =? NotificationMsg then
        match MsgBody msg with
        | BodyNotification nMsg =>
          if ErrorCode nMsg =? UnsupportedVersionNumber then
            let f := stopTimer f connectRetryTimer in
            let f := disconnect f in
            returnState f Idle "Received NOTIFICATION"
          else if (ErrorCode nMsg =? Packet.Cease) && fsm_dumpCon f c then Continue f
          else teardownAll f "Received NOTIFICATION"
        | _ => Crash
        end
      else if ty =? OpenMsg then
        match MsgBody msg with
        | BodyOpen openMsg =>
          let f := set_neighborID f (BGPIdentifier openMsg) in
          match resolveCollision f with
          | None => Crash
          | Some f =>
            let f := stopTimer f connectRetryTimer in
            let '(f, ok) := sendKeepalive f wr in
            if negb ok then openSentTCPFail f
            else
              let f := set_holdTime f
                         (negotiateHoldTime (holdTimeConfigured f) (HoldTime openMsg)) in
              let f :=
                if negb (holdTime f =? 0) then
                  let f := do f (TimerReset holdTimer (holdTime f)) in
                  let f := set_keepaliveTime f (Z.quot (holdTime f) 3) in
                  do f (TimerReset keepaliveTimer (keepaliveTime f))
                else f in
              returnState f OpenConfirm "Received OPEN message"
          end
        | _ => Crash
        end
      else
        let f := sendNotification f (con f) FiniteStateMachineError 0 in
        teardown f "FSM Error"
    end
  | InMsgRecvFail c => receiveFailed f c openSentTCPFail
  | _ => Continue f
  end.

(** One turn of the loop of [fsm.openConfirm()].  The body of a
    NOTIFICATION is asserted to be a [BGPNotification] value; it holds a
    pointer to one, and the assertion panics. *)
Definition openConfirm (f : FSM) (i : input) (wr : bool) : outcome :=
  match i with
  | InEvent e => if e =? ManualStop then manualStop f else Continue f
  | InHoldTimer =>
    let f := sendNotification f (con f) HoldTimeExpired 0 in
    teardownAll f "Holdtimer expired"
  | InKeepaliveTimer =>
    let '(f, ok) := sendKeepalive f wr in
    if negb ok then teardownAll f "Failed to send keepalive"
    else Continue (do f (TimerReset keepaliveTimer (keepaliveTime f)))
  | InCon c => secondConnection f c wr
  | InMsgRecv bytes c =>
    match Decode Uint32Byte bytes with
    | (Panic, _) => Crash
    | (Err err, _) => decodeFailed f err
    | (Ok msg, _) =>
      let ty := Type_ (Header msg) in
      if ty =? NotificationMsg then Crash
      else if ty =? KeepaliveMsg then
        let f := do f (TimerReset holdTimer (holdTime f)) in
        returnState f Established "Received KEEPALIVE"
      else if ty =? OpenMsg then
        match MsgBody msg with
        | BodyOpen openMsg =>
          let f := set_neighborID f (BGPIdentifier openMsg) in
          match resolveCollision f with
          | None => Crash
          | Some f => Continue f
          end
        | _ => Crash
        end
      else
        let f := sendNotification f (con f) FiniteStateMachineError 0 in
        teardown f "FSM Error"
    end
  | InMsgRecvFail c => receiveFailed f c openConfirmTCPFail
  | _ => Continue f
  end.

(** Not part of the sources at hand either: [convert.Uint32b] and the
    method [LPM.Remove]. *)
Variable Uint32b : list byte -> Z.
Variable Remove : LPM -> Prefix -> LPM.

(** One turn of the state function that the switch of [fsm.main()]
    calls for [next]; with [Cease] [main] returns, and no other value
    has a case. *)
Definition turn (next : Z) (f : FSM) (i : input) (wr : bool) : option outcome :=
  if next =? Idle then Some (idle f i)
  else if next =? Connect then Some (connect f i wr)
  else if next =? Active then Some (active f i wr)
  else if next =? OpenSent then Some (openSent f i wr)
  else if next =? OpenConfirm then Some (openConfirm f i wr)
  else if next =? Established
  then Some (established Uint32Byte Uint32b Remove
               ConnectionCollisionResolution f i wr)
  else None.

End Collision.

End Peer.

(** ** Vocabulary for the properties of the trie *)

(** A prefix as it comes off the wire: a 32-bit address, a length of at
    most 32, and no bit set after the first [pfxlen] ones. *)
Definition canonical (p : Net.Prefix) : Prop :=
  0 <= Net.Addr p < 4294967296 /\
  0 <= Net.Pfxlen p <= 32 /\
  Net.Addr p mod 2 ^ (32 - Net.Pfxlen p) = 0.

(** The nodes of a subtree in pre-order, each as its prefix and its
    dummy flag. *)
Fixpoint marks (n : LPM.node) : list (Net.Prefix * bool) :=
  match n with
  | LPM.Node _ d p lo hi =>
    (p, d)
    :: match lo with Some c => marks c | None => [] end
    ++ match hi with Some c => marks c | None => [] end
  end.

Definition marks_opt (n : option LPM.node) : list (Net.Prefix * bool) :=
  match n with Some c => marks c | None => [] end.

(** A big-endian [Uint32Byte], to run the decoder on examples. *)
Definition be32bytes (x : Z) : list byte := map B (Packet.be32 x).

(** The effects of closing a connection that may be nil. *)
Definition closes (c : option Server.conn) : list Server.effect :=
  match c with
  | Some c => [Server.ConClose c]
  | None => []
  end.


(** A big-endian [Uint32b], to run the FSM on examples. *)
Definition be32value (bs : list byte) : Z :=
  fold_left (fun acc b => acc * 256 + Packet.byteZ b) bs 0.

(** A peer with one connection, the connection 1, and the connection
    that the local port 179 accepted: the connection 1. *)
Definition examplePeer : Server.FSM :=
  Server.set_con (Peer.NewFSM 90 30 167772161 65001) (Some 1%nat).

Definition accepted (c : Server.conn) : bool := (c =? 1)%nat.

(** An UPDATE that announces 11.0.0.0/8, with its header. *)
Definition announce11 : list byte :=
  map B (repeat 255 16 ++ [0; 25; 2] ++ [0; 0; 0; 0; 8; 11]).

(** An OPEN of version 3, with its header. *)
Definition openVersion3 : list byte :=
  map B (repeat 255 16 ++ [0; 29; 1] ++ [3; 1; 1; 0; 15; 10; 10; 10; 11; 0]).
(** * Properties *)

(** ** Bit-level facts *)

Section Bits.

Lemma land_pow2 (a k : Z) : 0 <= k ->
  Z.land a (2 ^ k) = if Z.testbit a k then 2 ^ k else 0.
Proof.
  intros Hk. apply Z.bits_inj'. intros n Hn.
  rewrite Z.land_spec, Z.pow2_bits_eqb by lia.
  destruct (Z.eqb_spec k n) as [->|Hne].
  - destruct (Z.testbit a n); cbn.
    + now rewrite Z.pow2_bits_true.
    + now rewrite Z.bits_0.
  - rewrite andb_false_r. destruct (Z.testbit a k).
    + rewrite Z.pow2_bits_false; auto.
    + now rewrite Z.bits_0.
Qed.

Lemma land_pow2_eqb (a b k : Z) : 0 <= k ->
  (Z.land a (2 ^ k) =? Z.land b (2 ^ k)) = Bool.eqb (Z.testbit a k) (Z.testbit b k).
Proof.
  intros Hk. rewrite !land_pow2 by assumption.
  assert (0 < 2 ^ k) by (apply Z.pow_pos_nonneg; lia).
  destruct (Z.testbit a k), (Z.testbit b k); unfold Bool.eqb;
    first [ apply Z.eqb_refl | apply Z.eqb_neq; lia ].
Qed.

Lemma shl32_1 (s : Z) : 0 <= s ->
  shl32 1 s = if s <? 32 then 2 ^ s else 0.
Proof.
  intros Hs. unfold shl32, u32. rewrite Z.shiftl_1_l.
  destruct (Z.ltb_spec s 32).
  - apply Z.mod_small. split; [apply Z.pow_nonneg; lia|].
    change 4294967296 with (2 ^ 32). apply Z.pow_lt_mono_r; lia.
  - change 4294967296 with (2 ^ 32).
    replace s with (32 + (s - 32)) by lia.
    rewrite Z.pow_add_r by lia. rewrite Z.mul_comm. apply Z.mod_mul. lia.
Qed.

Lemma u8_small (x : Z) : 0 <= x < 256 -> u8 x = x.
Proof. intros. unfold u8. now apply Z.mod_small. Qed.

Lemma shr_testbit_0 (a s : Z) : 0 <= s -> Z.testbit (shr32 a s) 0 = Z.testbit a s.
Proof. intros. unfold shr32. rewrite Z.shiftr_spec by lia. f_equal. Qed.

End Bits.

(** ** Prefix algebra *)

Section PrefixFacts.
Import Net.

(** Agreement on the top bits implies the single-bit test of [Contains]. *)
Lemma contains_spec_Contains (p x : Prefix) :
  0 <= Pfxlen p <= 32 -> contains_spec p x -> Contains p x = true.
Proof.
  intros Hp [Hlen Htop]. unfold Contains.
  destruct (Z.leb_spec (Pfxlen x) (Pfxlen p)); [lia|].
  rewrite u8_small by lia. rewrite shl32_1 by lia.
  destruct (Z.ltb_spec (32 - Pfxlen p) 32).
  - rewrite land_pow2_eqb by lia.
    rewrite <- (shr_testbit_0 (Addr p)), <- (shr_testbit_0 (Addr x)) by lia.
    rewrite Htop. apply Bool.eqb_reflx.
  - now rewrite !Z.land_0_r.
Qed.

Lemma supernet_loop_exit (fuel : nat) (a L : Z) :
  supernet_loop fuel a a L = (a, a, L).
Proof. destruct fuel; cbn; now rewrite Z.eqb_refl. Qed.

Lemma supernet_loop_step (fuel : nat) (a b L : Z) :
  a <> b ->
  supernet_loop (S fuel) a b L
    = supernet_loop fuel (shr32 a 1) (shr32 b 1) (u8 (L - 1)).
Proof. intros Hne. cbn. apply Z.eqb_neq in Hne. now rewrite Hne. Qed.

Lemma shr32_32 (A : Z) : 0 <= A < 4294967296 -> shr32 A 32 = 0.
Proof.
  intros HA. unfold shr32. rewrite Z.shiftr_div_pow2 by lia.
  apply Z.div_small. exact HA.
Qed.

(** The loop of [GetSupernet], started at length [L] on the two
    addresses shifted right by [32 - L], leaves through its condition
    within [L] iterations, at the greatest length [L' <= L] on which
    the top bits agree. *)
Lemma supernet_loop_spec (A B : Z) :
  0 <= A < 4294967296 -> 0 <= B < 4294967296 ->
  forall (n fuel : nat) (L : Z),
    L = Z.of_nat n -> (n <= fuel)%nat -> L <= 32 ->
    exists L',
      0 <= L' <= L /\
      supernet_loop fuel (shr32 A (32 - L)) (shr32 B (32 - L)) L
        = (shr32 A (32 - L'), shr32 B (32 - L'), L') /\
      shr32 A (32 - L') = shr32 B (32 - L') /\
      (forall K, L' < K <= L -> shr32 A (32 - K) <> shr32 B (32 - K)).
Proof.
  intros HA HB n. induction n as [|n IH]; intros fuel L HL Hfuel H32.
  - subst L. cbn [Z.of_nat]. exists 0.
    change (32 - 0) with 32. rewrite !shr32_32 by assumption.
    repeat split; try lia. apply supernet_loop_exit.
  - destruct (Z.eq_dec (shr32 A (32 - L)) (shr32 B (32 - L))) as [Heq|Hne].
    + exists L. repeat split; try lia.
      rewrite Heq. apply supernet_loop_exit.
    + destruct fuel as [|fuel]; [lia|].
      rewrite supernet_loop_step by assumption.
      rewrite u8_small by lia.
      assert (Hs : forall X, shr32 (shr32 X (32 - L)) 1 = shr32 X (32 - (L - 1))).
      { intros X. unfold shr32. rewrite Z.shiftr_shiftr by lia. f_equal. lia. }
      rewrite !Hs.
      destruct (IH fuel (L - 1)) as (L' & HL' & Hrun & Hagree & Hmax); try lia.
      exists L'. repeat split; try lia; try assumption.
      intros K HK. destruct (Z.eq_dec K L) as [->|]; [assumption|].
      apply Hmax. lia.
Qed.

(** Thirty-two iterations are enough for 32-bit operands whatever the
    starting length: more fuel does not change the result. *)
Lemma supernet_loop_fuel (A B L : Z) (fuel : nat) :
  0 <= A < 4294967296 -> 0 <= B < 4294967296 -> 0 <= L <= 32 ->
  (32 <= fuel)%nat ->
  supernet_loop fuel (shr32 A (32 - L)) (shr32 B (32 - L)) L
    = supernet_loop 32 (shr32 A (32 - L)) (shr32 B (32 - L)) L.
Proof.
  intros HA HB HL Hfuel.
  destruct (supernet_loop_spec A B HA HB (Z.to_nat L) fuel L)
    as (L1 & HL1 & H1 & Hag1 & Hmax1); try lia.
  destruct (supernet_loop_spec A B HA HB (Z.to_nat L) 32 L)
    as (L2 & HL2 & H2 & Hag2 & Hmax2); try lia.
  rewrite H1, H2.
  assert (L1 = L2) as ->; [|reflexivity].
  destruct (Z.lt_trichotomy L1 L2) as [Hlt|[Heq|Hgt]]; [|assumption|].
  - exfalso. apply (Hmax1 L2); [lia|assumption].
  - exfalso. apply (Hmax2 L1); [lia|assumption].
Qed.

Lemma shl_shr_le (A s : Z) : 0 <= A -> 0 <= s ->
  0 <= Z.shiftl (Z.shiftr A s) s <= A.
Proof.
  intros HA Hs. rewrite Z.shiftl_mul_pow2, Z.shiftr_div_pow2 by lia.
  assert (0 < 2 ^ s) by (apply Z.pow_pos_nonneg; lia).
  pose proof (Z.mul_div_le A (2 ^ s) ltac:(lia)).
  pose proof (Z.div_pos A (2 ^ s) ltac:(lia) ltac:(lia)).
  nia.
Qed.

Lemma shr_shl_shr (A s : Z) : 0 <= A < 4294967296 -> 0 <= s ->
  shr32 (shl32 (shr32 A s) s) s = shr32 A s.
Proof.
  intros HA Hs. unfold shl32, shr32, u32.
  pose proof (shl_shr_le A s ltac:(lia) Hs).
  rewrite Z.mod_small by lia.
  rewrite Z.shiftr_shiftl_l by lia. rewrite Z.sub_diag. apply Z.shiftl_0_r.
Qed.




(** For the one-bit test of [Contains] the supernet is not the longest
    prefix accepted for both operands: 0.0.0.0/16 is accepted for
    10.0.0.0/24 and 11.0.0.0/24, whose supernet is 10.0.0.0/7. *)
Lemma Contains_accepts_longer_than_supernet :
  let a := NewPfx 167772160 24 in
  let b := NewPfx 184549376 24 in
  let r' := NewPfx 0 16 in
  GetSupernet a b = NewPfx 167772160 7 /\
  Contains r' a = true /\ Contains r' b = true /\
  ~ contains_spec r' a.
Proof.
  cbv zeta. repeat split. intros [_ H]. vm_compute in H. discriminate.
Qed.

(** C1: [Contains] accepts 12.0.0.0/9 as a subnet of 10.0.0.0/8,
    although their first eight bits differ: only bit 8 is compared. *)
Theorem Contains_compares_one_bit :
  let self := NewPfx 167772160 8 in
  let x := NewPfx 201326592 9 in
  Contains self x = true /\
  Pfxlen x > Pfxlen self /\
  shr32 (Addr x) (32 - Pfxlen self) <> shr32 (Addr self) (32 - Pfxlen self) /\
  ~ contains_spec self x.
Proof.
  cbv zeta. repeat split.
  - vm_compute. discriminate.
  - intros [_ H]. vm_compute in H. discriminate.
Qed.

(** What [Contains] computes for lengths 0 to 32: [x] is strictly
    longer and, unless [pfxlen] is 0, bit number [pfxlen] (counted from
    the most significant bit) of the two addresses is the same. *)
Lemma Contains_single_bit (self x : Prefix) :
  0 <= Pfxlen self <= 32 ->
  Contains self x = true <->
  Pfxlen x > Pfxlen self /\
  (Pfxlen self = 0 \/
   Z.testbit (Addr self) (32 - Pfxlen self) = Z.testbit (Addr x) (32 - Pfxlen self)).
Proof.
  intros Hl. unfold Contains.
  destruct (Z.leb_spec (Pfxlen x) (Pfxlen self)).
  - split; [discriminate|lia].
  - rewrite u8_small by lia. rewrite shl32_1 by lia.
    destruct (Z.ltb_spec (32 - Pfxlen self) 32).
    + rewrite land_pow2_eqb by lia. rewrite Bool.eqb_true_iff.
      split; [intros; split; [lia|now right]|].
      intros [_ [?|?]]; [lia|assumption].
    + rewrite !Z.land_0_r. split; [intros; split; [lia|left; lia]|reflexivity].
Qed.

End PrefixFacts.

(** ** The trie *)

Section TrieFacts.
Import Net LPM.

Lemma node_ind (P : node -> Prop) :
  (forall sk d p lo hi,
      (forall c, lo = Some c -> P c) ->
      (forall c, hi = Some c -> P c) ->
      P (Node sk d p lo hi)) ->
  forall n, P n.
Proof.
  intros step. fix IH 1. intros [sk d p lo hi].
  apply step.
  - destruct lo as [c0|]; intros c E; [|discriminate].
    injection E as <-. apply IH.
  - destruct hi as [c0|]; intros c E; [|discriminate].
    injection E as <-. apply IH.
Qed.

Lemma Equal_eq (a b : Prefix) : Equal a b = true -> a = b.
Proof.
  unfold Equal. destruct a, b; cbn. intros H.
  apply andb_true_iff in H as [H1 H2].
  apply Z.eqb_eq in H1, H2. now subst.
Qed.

(** [dumpPfxs] appends the pre-order listing to what it is handed. *)
Lemma dumpPfxs_reals (n : node) : forall res, dumpPfxs n res = res ++ reals n.
Proof.
  induction n as [sk d p lo hi IHl IHh] using node_ind. intros res. cbn.
  assert (Hd : (if negb d then res ++ [p] else res)
               = res ++ (if d then [] else [p])).
  { destruct d; cbn; [now rewrite app_nil_r|reflexivity]. }
  rewrite Hd.
  destruct lo as [cl|], hi as [ch|]; cbn.
  - rewrite (IHh ch eq_refl), (IHl cl eq_refl). now rewrite <- !app_assoc.
  - rewrite (IHl cl eq_refl), app_nil_r. now rewrite <- !app_assoc.
  - rewrite (IHh ch eq_refl). now rewrite <- !app_assoc.
  - now rewrite app_nil_r.
Qed.

(** [get] returns a non-dummy node of the tree that carries the prefix
    asked for. *)
Lemma get_found (p : Prefix) (r : node) :
  forall n, get r p = Some n -> subtree n r /\ pfx n = p /\ dummy n = false.
Proof.
  induction r as [sk d q lo hi IHl IHh] using node_ind. intros n. cbn.
  destruct (Equal q p) eqn:E.
  - destruct d; [discriminate|]. intros [= <-]. cbn.
    split; [constructor|]. split; [now apply Equal_eq|reflexivity].
  - destruct (Pfxlen q >? Pfxlen p); [discriminate|].
    destruct (negb _).
    + destruct lo as [c|]; [|discriminate]. intros H.
      destruct (IHl c eq_refl n H) as (Hs & Hp & Hd).
      split; [|now split]. now apply subtree_l with c.
    + destruct hi as [c|]; [|discriminate]. intros H.
      destruct (IHh c eq_refl n H) as (Hs & Hp & Hd).
      split; [|now split]. now apply subtree_h with c.
Qed.

Lemma subtree_reals (n r : node) : subtree n r -> incl (reals n) (reals r).
Proof.
  induction 1 as [|m c Hc _ IH|m c Hc _ IH].
  - apply incl_refl.
  - destruct m as [sk d q lo hi]. cbn in Hc. subst lo. cbn.
    intros x Hx. apply in_or_app. right. apply in_or_app. left. now apply IH.
  - destruct m as [sk d q lo hi]. cbn in Hc. subst hi. cbn.
    intros x Hx. apply in_or_app. right. apply in_or_app. right. now apply IH.
Qed.

(** The scenarios S1 to S3 of the specification, and the tests of the
    package. *)
Example insert_triangle :
  root (InsertAll [NewPfx 167772160 8; NewPfx 167772160 9; NewPfx 176160768 9])
  = Some {| skip := 8; dummy := false; pfx := NewPfx 167772160 8;
            l := Some (newNode (NewPfx 167772160 9) 0 false);
            h := Some (newNode (NewPfx 176160768 9) 0 false) |}.
Proof. reflexivity. Qed.

Example insert_disjoint :
  root (InsertAll [NewPfx 167772160 8; NewPfx 191134464 24])
  = Some {| skip := 7; dummy := true; pfx := NewPfx 167772160 7;
            l := Some (newNode (NewPfx 167772160 8) 0 false);
            h := Some (newNode (NewPfx 191134464 24) 16 false) |}.
Proof. reflexivity. Qed.

Example lpm_query :
  LPM_ (InsertAll [NewPfx 167772160 8; NewPfx 191134464 24;
                   NewPfx 167772160 12; NewPfx 167772160 10])
       (NewPfx 167772160 32)
  = [NewPfx 167772160 8; NewPfx 167772160 10; NewPfx 167772160 12].
Proof. reflexivity. Qed.

Example get_dummy :
  Get (InsertAll [NewPfx 167772160 8; NewPfx 191134464 24])
      (NewPfx 167772160 7) false = [].
Proof. reflexivity. Qed.



(** What does hold of [lpm] on every trie: whatever it adds to the
    result is the needle itself or a prefix that [Contains] accepts for
    the needle. *)
Lemma lpm_elements (needle : Prefix) (n : node) :
  forall res x,
    In x (lpm n needle res) ->
    In x res \/ x = needle \/ Contains x needle = true.
Proof.
  induction n as [sk d p lo hi IHl IHh] using node_ind. intros res x. cbn.
  destruct (Equal p needle && negb d) eqn:E.
  - apply andb_true_iff in E as [E _]. apply Equal_eq in E. subst p.
    intros H. apply in_app_or in H as [H|[<-|[]]]; auto.
  - destruct (Contains p needle) eqn:C; cbn [negb]; [|auto].
    assert (Hres : forall y, In y (if negb d then res ++ [p] else res) ->
                             In y res \/ y = needle \/ Contains y needle = true).
    { intros y Hy. destruct (negb d); [|auto].
      apply in_app_or in Hy as [Hy|[<-|[]]]; auto. }
    assert (Hlo : forall y,
               In y (match lo with
                     | Some c => lpm c needle (if negb d then res ++ [p] else res)
                     | None => if negb d then res ++ [p] else res
                     end) ->
               In y res \/ y = needle \/ Contains y needle = true).
    { intros y Hy. destruct lo as [c|]; [|auto].
      apply (IHl c eq_refl) in Hy as [Hy|Hy]; auto. }
    intros H. destruct hi as [c|]; [|auto].
    apply (IHh c eq_refl) in H as [H|H]; auto.
Qed.

(** C5: after inserting 1.0.0.0/12, 0.0.0.0/10 and 0.0.0.0/8, in that
    order, [LPM(1.0.0.0/12)] is empty: the one-bit test of [Contains]
    lets 0.0.0.0/10 and then 0.0.0.0/8 be put above 1.0.0.0/12, and the
    root fails the same test against the needle. *)
Theorem LPM_misses_inserted_prefix :
  let p := NewPfx 16777216 12 in
  let t := InsertAll [p; NewPfx 0 10; NewPfx 0 8] in
  In p (dumpPfxs_opt (root t) []) /\
  LPM_ t p = [].
Proof.
  cbv zeta. split; [|reflexivity].
  vm_compute. right. right. now left.
Qed.

End TrieFacts.

(** ** The decoder *)

Section DecoderFacts.
Import Packet.

Lemma byteZ_range (b : byte) : 0 <= byteZ b <= 255.
Proof.
  unfold byteZ. pose proof (Byte.to_N_bounded b) as H.
  lia.
Qed.

Lemma decode_uint8_cons (b : byte) (rest : list byte) :
  decode_uint8 (b :: rest) = (Ok (byteZ b), rest).
Proof. reflexivity. Qed.

Lemma decode_uint16_cons (b1 b0 : byte) (rest : list byte) :
  decode_uint16 (b1 :: b0 :: rest) = (Ok (byteZ b1 * 256 + byteZ b0), rest).
Proof. reflexivity. Qed.

(** C9: a NOTIFICATION whose two bytes are on the buffer decodes if and
    only if its (code, subcode) pair is in the validity table; every
    other pair, code 0 and codes above 6 included, is an error. *)
Theorem decodeNotificationMsg_valid_iff (code sub : byte) (rest : list byte) :
  match fst (_decodeNotificationMsg (code :: sub :: rest)) with
  | Ok msg =>
    notification_valid (byteZ code) (byteZ sub) = true /\
    msg = {| ErrorCode := byteZ code; ErrorSubcode := byteZ sub |}
  | Err _ => notification_valid (byteZ code) (byteZ sub) = false
  | Panic => False
  end.
Proof.
  pose proof (byteZ_range code) as Hc. pose proof (byteZ_range sub) as Hs.
  unfold _decodeNotificationMsg, bind.
  rewrite decode_uint8_cons. rewrite decode_uint8_cons.
  unfold notification_valid, invalidErrCode, fail, ret,
    Cease, MessageHeaderError, OpenMessageError, UpdateMessageError,
    HoldTimeExpired, FiniteStateMachineError, BadMessageType,
    UnacceptableHoldTime, DeprecatedOpenMsgError5, MalformedASPath,
    DeprecatedUpdateMsgError7.
  generalize dependent (byteZ code). generalize dependent (byteZ sub).
  intros s Hs c Hc.
  rewrite !Z.gtb_ltb.
  assert (Hcode : c = 0 \/ c = 1 \/ c = 2 \/ c = 3 \/ c = 4 \/ c = 5 \/ c = 6 \/ 6 < c)
    by lia.
  destruct Hcode as [->|[->|[->|[->|[->|[->|[->|Hbig]]]]]]].
  8: { destruct (Z.ltb_spec 6 c); [|lia].
       repeat match goal with
              | |- context [c =? ?b] => destruct (Z.eqb_spec c b); [lia|]
              end.
       reflexivity. }
  all: cbn [Z.eqb Z.ltb Z.compare Pos.compare Pos.compare_cont andb orb negb];
    repeat match goal with
           | |- context [?a =? ?b] => destruct (Z.eqb_spec a b); try lia
           | |- context [?a <? ?b] => destruct (Z.ltb_spec a b); try lia
           | |- context [?a <=? ?b] => destruct (Z.leb_spec a b); try lia
           end; cbn; auto.
Qed.

(** What [_decodeHeader] does on a buffer that holds the whole header. *)
Lemma decodeHeader_unfold (marker : list byte) (hi lo ty : byte) (rest : list byte) :
  List.length marker = 16%nat ->
  _decodeHeader (marker ++ hi :: lo :: ty :: rest) =
  if negb (markerOk marker)
  then (Err (BGPError MessageHeaderError ConnectionNotSync "Invalid marker"),
        hi :: lo :: ty :: rest)
  else
    let len := byteZ hi * 256 + byteZ lo in
    if (len <? MinLen) || (len >? MaxLen)
    then (Err (BGPError MessageHeaderError BadMessageLength
                 "Invalid length in BGP header"), rest)
    else if (byteZ ty >? KeepaliveMsg) || (byteZ ty =? 0)
    then (Err (BGPError MessageHeaderError BadMessageType
                 "Invalid message type"), rest)
    else (Ok {| Length := len; Type_ := byteZ ty |}, rest).
Proof.
  intros Hlen.
  do 17 (destruct marker as [|? marker]; try discriminate Hlen).
  reflexivity.
Qed.

Lemma markerOk_true (marker : list byte) :
  markerOk marker = true <-> (forall b, In b marker -> byteZ b = 255).
Proof.
  unfold markerOk. rewrite forallb_forall.
  split; intros H b Hb; specialize (H b Hb); now apply Z.eqb_eq.
Qed.

(** C4: on a buffer that holds the 19 bytes of a header, the checks are
    made in this order.  A marker byte other than 0xFF gives
    MessageHeaderError / ConnectionNotSync; otherwise a length outside
    19..4096 gives MessageHeaderError / BadMessageLength; otherwise a
    type outside 1..4 gives MessageHeaderError / BadMessageType;
    otherwise the header's length and type are returned. *)
Theorem decodeHeader_checks (marker : list byte) (hi lo ty : byte) (rest : list byte) :
  List.length marker = 16%nat ->
  let len := byteZ hi * 256 + byteZ lo in
  let r := fst (_decodeHeader (marker ++ hi :: lo :: ty :: rest)) in
  ((exists b, In b marker /\ byteZ b <> 255) ->
     exists s, r = Err (BGPError MessageHeaderError ConnectionNotSync s)) /\
  ((forall b, In b marker -> byteZ b = 255) ->
     (len < 19 \/ 4096 < len ->
        exists s, r = Err (BGPError MessageHeaderError BadMessageLength s)) /\
     (19 <= len <= 4096 -> byteZ ty < 1 \/ 4 < byteZ ty ->
        exists s, r = Err (BGPError MessageHeaderError BadMessageType s)) /\
     (19 <= len <= 4096 -> 1 <= byteZ ty <= 4 ->
        r = Ok {| Length := len; Type_ := byteZ ty |})).
Proof.
  intros Hlen len r. subst r. rewrite decodeHeader_unfold by assumption.
  pose proof (byteZ_range ty) as Hrange.
  fold len. unfold MinLen, MaxLen, KeepaliveMsg.
  split.
  - intros (b & Hb & Hne).
    destruct (markerOk marker) eqn:E.
    + exfalso. apply Hne. now apply (proj1 (markerOk_true marker) E).
    + cbn. eauto.
  - intros Hall. apply markerOk_true in Hall. rewrite Hall. cbn [negb].
    rewrite Z.gtb_ltb, (Z.gtb_ltb (byteZ ty)).
    split; [|split].
    + intros Hout.
      destruct (Z.ltb_spec len 19), (Z.ltb_spec 4096 len); cbn; eauto; lia.
    + intros Hin Hty.
      destruct (Z.ltb_spec len 19), (Z.ltb_spec 4096 len); try lia.
      destruct (Z.ltb_spec 4 (byteZ ty)), (Z.eqb_spec (byteZ ty) 0);
        cbn; eauto; lia.
    + intros Hin Hty.
      destruct (Z.ltb_spec len 19), (Z.ltb_spec 4096 len); try lia.
      destruct (Z.ltb_spec 4 (byteZ ty)), (Z.eqb_spec (byteZ ty) 0);
        cbn; auto; lia.
Qed.

(** The KEEPALIVE header of the specification, and the same header with
    one marker byte set to 2. *)
Lemma decodeHeader_checks_witness :
  fst (_decodeHeader (repeat (B 255) 16 ++ [B 0; B 19; B 4]))
    = Ok {| Length := 19; Type_ := 4 |} /\
  exists s,
    fst (_decodeHeader ((repeat (B 255) 15 ++ [B 2]) ++ [B 0; B 19; B 4]))
      = Err (BGPError MessageHeaderError ConnectionNotSync s).
Proof.
  split.
  - apply (decodeHeader_checks (repeat (B 255) 16) (B 0) (B 19) (B 4) []);
      [reflexivity| |vm_compute; intuition discriminate|vm_compute; intuition discriminate].
    intros b Hb. apply repeat_spec in Hb. now subst.
  - apply (decodeHeader_checks (repeat (B 255) 15 ++ [B 2]) (B 0) (B 19) (B 4) []);
      [reflexivity|].
    exists (B 2). split; [|vm_compute; discriminate].
    apply in_or_app. right. now left.
Defined.

(** *** Reading from the buffer *)

Lemma take_spec (n : nat) : forall buf bs rest,
  take n buf = Some (bs, rest) -> buf = bs ++ rest /\ List.length bs = n.
Proof.
  induction n as [|n IH]; intros buf bs rest; cbn.
  - intros [= <- <-]. now split.
  - destruct buf as [|b buf]; [discriminate|].
    destruct (take n buf) as [[bs' rest']|] eqn:E; [|discriminate].
    intros [= <- <-]. destruct (IH _ _ _ E) as [-> <-]. now split.
Qed.

Lemma bind_Ok {A C} (m : Dec A) (f : A -> Dec C) buf c rest :
  bind m f buf = (Ok c, rest) ->
  exists a buf', m buf = (Ok a, buf') /\ f a buf' = (Ok c, rest).
Proof.
  unfold bind. destruct (m buf) as [[a|e|] buf']; try discriminate.
  intros H. now exists a, buf'.
Qed.

Lemma wrap_Ok {A} (s : string) (m : Dec A) buf a rest :
  wrap s m buf = (Ok a, rest) -> m buf = (Ok a, rest).
Proof.
  unfold wrap. destruct (m buf) as [[a'|e|] buf']; try discriminate.
  - auto.
  - destruct e; discriminate.
Qed.

Lemma decode_uint16_Ok buf v rest :
  decode_uint16 buf = (Ok v, rest) ->
  0 <= v < 65536 /\ List.length buf = S (S (List.length rest)).
Proof.
  destruct buf as [|b1 [|b0 buf]]; try discriminate.
  rewrite decode_uint16_cons. intros [= <- <-].
  pose proof (byteZ_range b1). pose proof (byteZ_range b0).
  split; [lia|reflexivity].
Qed.

Lemma B_byteZ (b : byte) : B (byteZ b) = b.
Proof.
  unfold B, byteZ. rewrite N2Z.id. now rewrite Byte.of_to_N.
Qed.

(** *** NLRI *)

Lemma ceilOctets_range (pfxlen : Z) :
  0 <= pfxlen <= 255 ->
  ceilOctets pfxlen = (pfxlen + 7) / 8 /\ 0 <= ceilOctets pfxlen <= 32.
Proof.
  intros H. unfold ceilOctets, OctetLen. change (8 - 1) with 7.
  assert (0 <= (pfxlen + 7) / 8 <= 32) by (Z.div_mod_to_equations; lia).
  rewrite u8_small by lia. lia.
Qed.

(** The address loop of [decodeNLRI]: it takes [min(toCopy, 4)] bytes
    off the buffer and pads them with zeros to four. *)
Lemma decodeNLRI_addr_4 (toCopy : Z) (buf : list byte) :
  0 <= toCopy ->
  let k := Z.to_nat (Z.min toCopy 4) in
  decodeNLRI_addr 4 0 toCopy buf =
  match take k buf with
  | Some (bs, rest) => (Ok (bs ++ repeat x00 (4 - k)), rest)
  | None => (Err (errorString "Unable to read from buffer"), [])
  end.
Proof.
  intros H0.
  assert (Hc : toCopy = 0 \/ toCopy = 1 \/ toCopy = 2 \/ toCopy = 3 \/ 4 <= toCopy)
    by lia.
  destruct Hc as [->|[->|[->|[->|Hge]]]]; cbv zeta.
  5: { rewrite Z.min_r by lia.
       unfold decodeNLRI_addr, bind, u8. cbn [Z.add Z.modulo Z.div_eucl Z.pos_div_eucl
         Z.leb Z.ltb Z.compare Pos.compare Pos.compare_cont Z.mul Z.sub Z.opp
         Z.pos_sub Pos.add Pos.succ Pos.mul Z.succ_double Z.pred_double Z.double
         fst snd].
       destruct (Z.ltb_spec 0 toCopy); [|lia].
       destruct (Z.ltb_spec 1 toCopy); [|lia].
       destruct (Z.ltb_spec 2 toCopy); [|lia].
       destruct (Z.ltb_spec 3 toCopy); [|lia].
       destruct buf as [|b0 [|b1 [|b2 [|b3 buf]]]]; reflexivity. }
  all: destruct buf as [|b0 [|b1 [|b2 [|b3 buf]]]]; reflexivity.
Qed.

(** What [decodeNLRI] does: the length byte, then [min(ceil(pfxlen/8), 4)]
    address bytes, padded with zeros; it reports [ceil(pfxlen/8) + 1]
    bytes as consumed. *)
Lemma decodeNLRI_cons (p : byte) (buf : list byte) :
  let toCopy := ceilOctets (byteZ p) in
  decodeNLRI (p :: buf) =
  match take (Z.to_nat (Z.min toCopy 4)) buf with
  | Some (bs, rest) =>
    (Ok ({| IP := bs ++ repeat x00 (4 - Z.to_nat (Z.min toCopy 4));
            Pfxlen := byteZ p |}, toCopy + 1), rest)
  | None => (Err (errorString "Unable to read from buffer"), [])
  end.
Proof.
  cbv zeta. pose proof (byteZ_range p) as Hp.
  destruct (ceilOctets_range (byteZ p) ltac:(lia)) as [_ Hc].
  unfold decodeNLRI, bind. rewrite decode_uint8_cons.
  change (Z.to_nat (4 mod OctetLen)) with 4%nat.
  rewrite decodeNLRI_addr_4 by lia. cbv zeta.
  destruct (take _ buf) as [[bs rest]|]; [|reflexivity].
  unfold ret. rewrite u8_small by lia. reflexivity.
Qed.

(** A decoded NLRI of length at most 32 stands on the buffer as its
    wire encoding, reports as many bytes as it read, and is padded. *)
Lemma decodeNLRI_Ok (buf : list byte) (x : NLRI) (c : Z) (rest : list byte) :
  decodeNLRI buf = (Ok (x, c), rest) -> Pfxlen x <= 32 ->
  buf = wire x ++ rest /\ c = Z.of_nat (List.length (wire x)) /\
  1 <= c <= 5 /\ padded x.
Proof.
  destruct buf as [|p buf]; [discriminate|].
  rewrite decodeNLRI_cons. cbv zeta.
  pose proof (byteZ_range p) as Hp.
  destruct (ceilOctets_range (byteZ p) ltac:(lia)) as [Hceil Hc].
  destruct (take _ buf) as [[bs rest']|] eqn:E; [|discriminate].
  intros [= <- <- <-]. cbn [Pfxlen]. intros H32.
  assert (H4 : ceilOctets (byteZ p) <= 4)
    by (rewrite Hceil; Z.div_mod_to_equations; lia).
  rewrite Z.min_l in * by lia.
  destruct (take_spec _ _ _ _ E) as [-> Hlen].
  unfold wire, padded. cbn [IP Pfxlen]. rewrite B_byteZ.
  rewrite <- Hlen.
  rewrite firstn_app, Nat.sub_diag, firstn_all. cbn [firstn]. rewrite app_nil_r.
  rewrite skipn_app, Nat.sub_diag, skipn_all. cbn [skipn app].
  rewrite length_app, repeat_length.
  split; [reflexivity|]. cbn [List.length].
  split; [rewrite Hlen; lia|]. split; [lia|].
  assert (Hk : (List.length bs <= 4)%nat) by lia.
  clear - Hk.
  destruct (List.length bs) as [|[|[|[|[|k]]]]]; try lia; split; reflexivity.
Qed.

(** The loop of [decodeNLRIs] on NLRIs of length at most 32: the
    decoded list stands on the buffer as the concatenation of its wire
    encodings, and the loop ends with the first NLRI that brings the
    count to [n] or beyond, at most 4 bytes beyond. *)
Lemma decodeNLRIs_loop_Ok (n : Z) : forall fuel p buf nl rest,
  0 <= p -> n <= 65531 ->
  decodeNLRIs_loop fuel n p buf = (Ok nl, rest) ->
  (forall x, In x nl -> Pfxlen x <= 32) ->
  buf = List.concat (map wire nl) ++ rest /\ Forall padded nl /\
  (n <= p -> nl = []) /\
  (p < n -> n <= p + Z.of_nat (List.length (List.concat (map wire nl))) <= n + 4).
Proof.
  induction fuel as [|fuel IH]; intros p buf nl rest Hp Hn Hrun H32.
  - cbn in Hrun. destruct (Z.ltb_spec p n); [discriminate|].
    injection Hrun as <- <-. cbn. repeat split; auto; lia.
  - cbn [decodeNLRIs_loop] in Hrun. destruct (Z.ltb_spec p n) as [Hlt|Hge].
    + apply bind_Ok in Hrun as ([x c1] & b1 & Hx & Hrun).
      apply wrap_Ok in Hx.
      apply bind_Ok in Hrun as (nl' & b2 & Hloop & Hret).
      injection Hret as <- <-.
      destruct (decodeNLRI_Ok _ _ _ _ Hx) as (-> & Hc1 & Hc15 & Hpad).
      { apply H32. now left. }
      unfold u16 in Hloop. rewrite Z.mod_small in Hloop by lia.
      destruct (IH (p + c1) b1 nl' b2) as (-> & Hpads & Hnil & Hrange);
        try lia; [assumption|intros y Hy; apply H32; now right|].
      cbn [map List.concat]. rewrite <- app_assoc.
      split; [reflexivity|]. split; [now constructor|].
      split; [lia|]. intros _.
      rewrite length_app, Nat2Z.inj_add, <- Hc1.
      destruct (Z.lt_ge_cases (p + c1) n) as [Hlt'|Hge'].
      * specialize (Hrange Hlt'). lia.
      * rewrite (Hnil Hge'). cbn. lia.
    + injection Hrun as <- <-. cbn. repeat split; auto; lia.
Qed.

Lemma take_length (n : nat) : forall buf bs rest,
  take n buf = Some (bs, rest) -> (List.length rest <= List.length buf)%nat.
Proof.
  intros buf bs rest H. destruct (take_spec _ _ _ _ H) as [-> _].
  rewrite length_app. lia.
Qed.

(** The fuel that [decodeNLRIs] gives its loop is never exhausted. *)
Lemma decodeNLRIs_loop_fuel (n : Z) : forall fuel p buf,
  (List.length buf < fuel)%nat ->
  fst (decodeNLRIs_loop fuel n p buf) <> Err outOfFuel.
Proof.
  induction fuel as [|fuel IH]; intros p buf Hfuel; [lia|].
  cbn [decodeNLRIs_loop]. destruct (p <? n); [|discriminate].
  unfold bind at 1, wrap.
  destruct buf as [|b buf]; [discriminate|].
  rewrite decodeNLRI_cons. cbv zeta.
  destruct (take _ buf) as [[bs rest]|] eqn:E; [|discriminate].
  apply take_length in E. cbn [List.length] in Hfuel.
  specialize (IH (u16 (p + (ceilOctets (byteZ b) + 1))) rest ltac:(lia)).
  unfold bind. destruct (decodeNLRIs_loop fuel n _ rest) as [[nl|e|] b2];
    cbn in *; congruence.
Qed.

Lemma decodeNLRIs_fuel (n : Z) (buf : list byte) :
  fst (decodeNLRIs n buf) <> Err outOfFuel.
Proof. apply decodeNLRIs_loop_fuel. lia. Qed.

(** *** UPDATE *)

Lemma nlriLen_small (l tpal wrl : Z) :
  0 <= tpal -> 0 <= wrl -> 4 + tpal + wrl <= l < 65536 ->
  nlriLen l tpal wrl = l - 4 - tpal - wrl.
Proof.
  intros. unfold nlriLen, u16.
  rewrite (Z.mod_small (l - 4)) by lia.
  rewrite (Z.mod_small (l - 4 - tpal)) by lia.
  apply Z.mod_small. lia.
Qed.

(** C6, as amended: when an UPDATE decodes, its lengths satisfy
    [4 + tpal + wrl <= l] (with [l] the message length less 19) and its
    NLRIs have prefix lengths of at most 32, then the length given to
    the NLRI parser is [n = l - 4 - tpal - wrl]; the buffer left after
    the path attributes starts with the wire encodings of the decoded
    NLRIs, one after the other, each a length byte followed by
    [ceil(pfxlen/8)] address octets; the bytes so parsed number 0 when
    [n = 0] and between [n] and [n + 4] otherwise; and every decoded
    address is zero after its first [ceil(pfxlen/8)] bytes. *)
Theorem decodeUpdateMsg_NLRI
    (l : Z) (buf : list byte) (msg : BGPUpdate) (rest : list byte) :
  decodeUpdateMsg l buf = (Ok msg, rest) ->
  0 <= l < 65536 ->
  4 + TotalPathAttrLen msg + WithdrawnRoutesLen msg <= l ->
  (forall x, In x (NLRIs msg) -> Pfxlen x <= 32) ->
  let n := l - 4 - TotalPathAttrLen msg - WithdrawnRoutesLen msg in
  let parsed := Z.of_nat (List.length (List.concat (map wire (NLRIs msg)))) in
  nlriLen l (TotalPathAttrLen msg) (WithdrawnRoutesLen msg) = n /\
  (exists b1 b2 b3 b4,
     decode_uint16 buf = (Ok (WithdrawnRoutesLen msg), b1) /\
     decodeNLRIs (WithdrawnRoutesLen msg) b1 = (Ok (WithdrawnRoutes msg), b2) /\
     decode_uint16 b2 = (Ok (TotalPathAttrLen msg), b3) /\
     decodePathAttrs (TotalPathAttrLen msg) b3 = (Ok (PathAttributes msg), b4) /\
     b4 = List.concat (map wire (NLRIs msg)) ++ rest) /\
  (n = 0 -> parsed = 0) /\
  (0 < n -> n <= parsed <= n + 4) /\
  Forall padded (NLRIs msg).
Proof.
  intros Hrun Hl Hlens H32. unfold decodeUpdateMsg in Hrun.
  apply bind_Ok in Hrun as (wrl & b1 & Hwrl & Hrun).
  apply bind_Ok in Hrun as (wd & b2 & Hwd & Hrun).
  apply bind_Ok in Hrun as (tpal & b3 & Htpal & Hrun).
  apply bind_Ok in Hrun as (attrs & b4 & Hattrs & Hrun).
  apply bind_Ok in Hrun as (nlri & b5 & Hnlri & Hret).
  injection Hret as <- <-. cbn [TotalPathAttrLen WithdrawnRoutesLen NLRIs
    WithdrawnRoutes PathAttributes] in *.
  destruct (decode_uint16_Ok _ _ _ Hwrl) as [Hwrl_range _].
  destruct (decode_uint16_Ok _ _ _ Htpal) as [Htpal_range _].
  rewrite nlriLen_small in Hnlri by lia.
  cbv zeta. rewrite nlriLen_small by lia.
  split; [reflexivity|].
  rewrite Z.gtb_ltb in Hnlri.
  destruct (Z.ltb_spec 0 (l - 4 - tpal - wrl)) as [Hpos|Hzero].
  - unfold decodeNLRIs in Hnlri.
    destruct (decodeNLRIs_loop_Ok (l - 4 - tpal - wrl) _ 0 b4 nlri b5
                ltac:(lia) ltac:(lia) Hnlri H32)
      as (Hbuf & Hpad & _ & Hrange).
    split; [exists b1, b2, b3, b4; repeat split; assumption|].
    split; [lia|]. split; [intros _; specialize (Hrange Hpos); lia|assumption].
  - injection Hnlri as <- <-.
    split; [exists b1, b2, b3, b4; repeat split; assumption|].
    cbn. split; [reflexivity|]. split; [lia|constructor].
Qed.

(** An UPDATE without withdrawn routes or attributes that announces
    11.0.0.0/8: two NLRI bytes, as its length 6 says. *)
Lemma decodeUpdateMsg_NLRI_witness :
  exists msg,
    decodeUpdateMsg 6 (map B [0; 0; 0; 0; 8; 11]) = (Ok msg, []) /\
    nlriLen 6 (TotalPathAttrLen msg) (WithdrawnRoutesLen msg) = 2 /\
    NLRIs msg = [{| IP := map B [11; 0; 0; 0]; Pfxlen := 8 |}] /\
    Forall padded (NLRIs msg).
Proof.
  pose (m := {| WithdrawnRoutesLen := 0; WithdrawnRoutes := [];
                TotalPathAttrLen := 0; PathAttributes := [];
                NLRIs := [{| IP := map B [11; 0; 0; 0]; Pfxlen := 8 |}] |}).
  exists m. split; [reflexivity|].
  destruct (decodeUpdateMsg_NLRI 6 (map B [0; 0; 0; 0; 8; 11]) m [] eq_refl)
    as (Hn & _ & _ & _ & Hpad).
  - lia.
  - cbn. lia.
  - intros x [<-|[]]. cbn. lia.
  - split; [exact Hn|]. split; [reflexivity|exact Hpad].
Defined.

(** C6, as stated, fails.  With the lengths [l = 5], [wrl = 0] and
    [tpal = 0] the formula gives 1, and the two bytes of 10.0.0.0/8 are
    parsed.  And an NLRI of length 40 is decoded from four address
    octets, not [ceil(40/8) = 5]: the octet 9 is left on the buffer. *)
Lemma decodeUpdateMsg_NLRI_bytes_differ :
  (decodeUpdateMsg 5 (map B [0; 0; 0; 0; 8; 10])
   = (Ok {| WithdrawnRoutesLen := 0; WithdrawnRoutes := [];
            TotalPathAttrLen := 0; PathAttributes := [];
            NLRIs := [{| IP := map B [10; 0; 0; 0]; Pfxlen := 8 |}] |}, []) /\
   5 - 4 - 0 - 0 = 1 /\
   List.length (map B [8; 10]) = 2%nat) /\
  (decodeUpdateMsg 10 (map B [0; 0; 0; 0; 40; 1; 2; 3; 4; 9])
   = (Ok {| WithdrawnRoutesLen := 0; WithdrawnRoutes := [];
            TotalPathAttrLen := 0; PathAttributes := [];
            NLRIs := [{| IP := map B [1; 2; 3; 4]; Pfxlen := 40 |}] |},
      [B 9]) /\
   ceilOctets 40 = 5).
Proof. repeat split. Qed.

(** C10: an UPDATE of body length [l = 0] with [wrl = 0] and
    [tpal = 0] has [wrl + tpal + 4 > l]; the 16-bit subtraction wraps to
    65532; the NLRI parser is run with that length on whatever follows,
    here 65535 bytes that decode to 13107 NLRIs; on a short buffer the
    error is the parser's, not a rejection of the lengths. *)
Theorem decodeUpdateMsg_nlriLen_wraps :
  let l := 0 in
  let lens := map B [0; 0; 0; 0] in
  l < 0 + 0 + 4 /\
  nlriLen l 0 0 = 65532 /\ nlriLen l 0 0 = l - 4 - 0 - 0 + 65536 /\
  (forall t,
     decodeUpdateMsg l (lens ++ t)
     = bind (decodeNLRIs (nlriLen l 0 0))
         (fun nlri =>
            ret {| WithdrawnRoutesLen := 0; WithdrawnRoutes := [];
                   TotalPathAttrLen := 0; PathAttributes := [];
                   NLRIs := nlri |}) t) /\
  (exists msg,
     decodeUpdateMsg l (lens ++ manyNLRIs) = (Ok msg, []) /\
     WithdrawnRoutesLen msg = 0 /\ TotalPathAttrLen msg = 0 /\
     Z.of_nat (List.length (NLRIs msg)) = 13107 /\
     Z.of_nat (List.length manyNLRIs) = 65535) /\
  decodeUpdateMsg l (lens ++ map B [8; 10])
  = (Err (errorString "Unable to decode NLRI"), []).
Proof.
  cbv zeta. split; [lia|]. split; [reflexivity|]. split; [reflexivity|].
  split; [intros t; reflexivity|].
  split; [|reflexivity].
  assert (Hrun : exists nl,
             decodeUpdateMsg 0 (map B [0; 0; 0; 0] ++ manyNLRIs)
             = (Ok {| WithdrawnRoutesLen := 0; WithdrawnRoutes := [];
                      TotalPathAttrLen := 0; PathAttributes := [];
                      NLRIs := nl |}, []) /\
             Z.of_nat (List.length nl) = 13107).
  { eexists. split; [vm_compute; reflexivity|]. vm_compute. reflexivity. }
  destruct Hrun as (nl & Hrun & Hlen).
  eexists. split; [exact Hrun|]. cbn [WithdrawnRoutesLen TotalPathAttrLen NLRIs].
  split; [reflexivity|]. split; [reflexivity|]. split; [exact Hlen|].
  vm_compute. reflexivity.
Qed.

End DecoderFacts.

(** ** The peer FSM *)

Section FSMFacts.
Import Packet Server.

(** C8: in the Active state a ManualStop disconnects, zeroes the
    connect-retry counter and stops the connect-retry timer, and then
    the state function changes state to Active again, not to Idle. *)
Theorem active_ManualStop_returns_Active (f : FSM) (wr : bool) :
  exists f',
    active f (InEvent ManualStop) wr = Return Active f' /\
    state f' = Active /\ Active <> Idle /\
    con f' = None /\ con2 f' = None /\
    connectRetryCounter f' = 0 /\
    exists closes,
      effects f' = effects f ++ closes ++ [TimerStop connectRetryTimer].
Proof.
  eexists. split; [reflexivity|].
  split; [reflexivity|]. split; [discriminate|].
  unfold disconnect. destruct f as [? ? ? [c1|] [c2|] ? ? ? ? ? ? ? ? ? ? eff]; cbn;
    (split; [reflexivity|]); (split; [reflexivity|]); (split; [reflexivity|]).
  - exists [ConClose c1; ConClose c2]. now rewrite <- !app_assoc.
  - exists [ConClose c1]. now rewrite <- !app_assoc.
  - exists [ConClose c2]. now rewrite <- !app_assoc.
  - exists []. reflexivity.
Qed.

(** The sibling states do go to Idle on ManualStop, as [established]
    does here. *)
Lemma established_ManualStop_returns_Idle
    (U32B : Z -> list byte) (U32b : list byte -> Z)
    (Remove : LPM.LPM -> Net.Prefix -> LPM.LPM) (CCR : Z) (f : FSM) (wr : bool) :
  exists f',
    established U32B U32b Remove CCR f (InEvent ManualStop) wr = Return Idle f' /\
    connectRetryCounter f' = 0.
Proof. eexists. split; reflexivity. Qed.

(** C2: in the Established state, a message whose header fails to
    decode with the BGP error MessageHeaderError / ConnectionNotSync
    tears the connection down, increments the connect-retry counter and
    leads to Idle, but no NOTIFICATION is written: [Decode] hands the
    FSM a re-formatted error, not the [BGPError].  And whatever code and
    subcode [sendNotification] is given, the NOTIFICATION it writes
    carries code 0 and subcode 0. *)
Theorem established_decode_failure_sends_no_code
    (U32B : Z -> list byte) (U32b : list byte -> Z)
    (Remove : LPM.LPM -> Net.Prefix -> LPM.LPM) (CCR : Z)
    (f0 : FSM) (c : conn) (wr : bool) :
  let f := set_con f0 (Some c) in
  (exists s, fst (decodeHeader badMarkerMsg)
             = Err (BGPError MessageHeaderError ConnectionNotSync s)) /\
  (exists s, fst (Decode U32B badMarkerMsg) = Err (errorString s)) /\
  (exists f',
     established U32B U32b Remove CCR f (InMsgRecv badMarkerMsg c) wr
       = Return Idle f' /\
     state f' = Idle /\
     connectRetryCounter f' = connectRetryCounter f + 1 /\
     effects f' = effects f ++ [TimerStop connectRetryTimer; ConClose c]) /\
  (forall code sub,
     effects (sendNotification f (Some c) code sub)
       = effects f ++ [ConWrite c (repeat 255 16 ++ [0; 21; 3] ++ [0; 0])]).
Proof.
  cbv zeta. split; [eexists; reflexivity|]. split; [eexists; reflexivity|].
  split.
  - eexists. split; [reflexivity|]. cbn. rewrite <- app_assoc.
    repeat split.
  - intros code sub. reflexivity.
Qed.

End FSMFacts.

(** ** The fuel of the decoder's loops is never exhausted *)

Section Fuel.
Import Packet.

Lemma nofuel_ret {A} (a : A) : nofuel (ret a).
Proof. intros buf. discriminate. Qed.

Lemma shrinks_ret {A} (a : A) : shrinks (ret a).
Proof. intros buf. cbn. lia. Qed.

Lemma nofuel_fail {A} (s : string) : nofuel (@fail A (errorString s)).
Proof. intros buf. discriminate. Qed.

Lemma shrinks_fail {A} (e : error) : shrinks (@fail A e).
Proof. intros buf. cbn. lia. Qed.

Lemma nofuel_bind {A C} (m : Dec A) (f : A -> Dec C) :
  nofuel m -> (forall a, nofuel (f a)) -> nofuel (bind m f).
Proof.
  intros Hm Hf buf. unfold bind. specialize (Hm buf).
  destruct (m buf) as [[a|e|] b']; cbn in *; [apply Hf|congruence|discriminate].
Qed.

Lemma shrinks_bind {A C} (m : Dec A) (f : A -> Dec C) :
  shrinks m -> (forall a, shrinks (f a)) -> shrinks (bind m f).
Proof.
  intros Hm Hf buf. unfold bind. specialize (Hm buf).
  destruct (m buf) as [[a|e|] b']; cbn in *; try lia.
  specialize (Hf a b'). lia.
Qed.

Lemma nofuel_wrap {A} (s : string) (m : Dec A) : nofuel m -> nofuel (wrap s m).
Proof.
  intros Hm buf. unfold wrap. specialize (Hm buf).
  destruct (m buf) as [[a|e|] b']; cbn in *; try discriminate.
  destruct e; cbn; congruence.
Qed.

Lemma shrinks_wrap {A} (s : string) (m : Dec A) : shrinks m -> shrinks (wrap s m).
Proof.
  intros Hm buf. unfold wrap. specialize (Hm buf).
  destruct (m buf) as [[a|e|] b']; cbn in *; try lia.
  destruct e; cbn; lia.
Qed.

Lemma nofuel_readFull (n : nat) : nofuel (readFull n).
Proof.
  intros buf. unfold readFull. destruct (take n buf) as [[bs rest]|]; discriminate.
Qed.

Lemma shrinks_readFull (n : nat) : shrinks (readFull n).
Proof.
  intros buf. unfold readFull. destruct (take n buf) as [[bs rest]|] eqn:E; cbn.
  - now apply take_length in E.
  - lia.
Qed.

Lemma nofuel_bufRead (n : nat) : nofuel (bufRead n).
Proof. intros [|b buf]; discriminate. Qed.

Lemma shrinks_bufRead (n : nat) : shrinks (bufRead n).
Proof.
  intros [|b buf]; cbn [bufRead snd]; [lia|]. rewrite length_skipn. lia.
Qed.

Create HintDb dec discriminated.
#[local] Hint Resolve nofuel_ret shrinks_ret nofuel_fail shrinks_fail
  nofuel_wrap shrinks_wrap nofuel_readFull shrinks_readFull
  nofuel_bufRead shrinks_bufRead : dec.

(** Decomposes a decoder built from [bind], [if] and [match]. *)
Ltac dec_step :=
  match goal with
  | |- nofuel (bind _ _) => apply nofuel_bind; [|intros ?]
  | |- shrinks (bind _ _) => apply shrinks_bind; [|intros ?]
  | |- nofuel (if ?c then _ else _) => destruct c
  | |- shrinks (if ?c then _ else _) => destruct c
  | |- nofuel (match ?x with _ => _ end) => destruct x
  | |- shrinks (match ?x with _ => _ end) => destruct x
  | |- _ => solve [auto with dec]
  end.
Ltac dec_solve := repeat dec_step.

Lemma nofuel_decode_uint8 : nofuel decode_uint8.
Proof. unfold decode_uint8. dec_solve. Qed.
Lemma shrinks_decode_uint8 : shrinks decode_uint8.
Proof. unfold decode_uint8. dec_solve. Qed.
Lemma nofuel_decode_byte : nofuel decode_byte.
Proof. unfold decode_byte. dec_solve. Qed.
Lemma shrinks_decode_byte : shrinks decode_byte.
Proof. unfold decode_byte. dec_solve. Qed.
Lemma nofuel_decode_uint16 : nofuel decode_uint16.
Proof. unfold decode_uint16. dec_solve. Qed.
Lemma shrinks_decode_uint16 : shrinks decode_uint16.
Proof. unfold decode_uint16. dec_solve. Qed.
Lemma nofuel_decode_uint32 : nofuel decode_uint32.
Proof. unfold decode_uint32. dec_solve. Qed.
Lemma shrinks_decode_uint32 : shrinks decode_uint32.
Proof. unfold decode_uint32. dec_solve. Qed.

Lemma consumes_decode_uint8 : consumes decode_uint8.
Proof.
  intros [|b buf] a rest; [discriminate|].
  rewrite decode_uint8_cons. intros [= <- <-]. cbn. lia.
Qed.

#[local] Hint Resolve nofuel_decode_uint8 shrinks_decode_uint8
  nofuel_decode_byte shrinks_decode_byte
  nofuel_decode_uint16 shrinks_decode_uint16
  nofuel_decode_uint32 shrinks_decode_uint32 : dec.

Lemma nofuel_dumpNBytes (n : Z) : nofuel (dumpNBytes n).
Proof. unfold dumpNBytes. dec_solve. Qed.
Lemma shrinks_dumpNBytes (n : Z) : shrinks (dumpNBytes n).
Proof. unfold dumpNBytes. dec_solve. Qed.
#[local] Hint Resolve nofuel_dumpNBytes shrinks_dumpNBytes : dec.

Lemma nofuel_decodeASNs (count : nat) : forall p asns, nofuel (decodeASNs count p asns).
Proof. induction count; intros; cbn [decodeASNs]; dec_solve. Qed.
Lemma shrinks_decodeASNs (count : nat) : forall p asns, shrinks (decodeASNs count p asns).
Proof. induction count; intros; cbn [decodeASNs]; dec_solve. Qed.
#[local] Hint Resolve nofuel_decodeASNs shrinks_decodeASNs : dec.

Lemma shrinks_decodeASPath_loop (len : Z) : forall fuel p,
  shrinks (decodeASPath_loop fuel len p).
Proof.
  induction fuel as [|fuel IH]; intros p; cbn [decodeASPath_loop]; dec_solve.
Qed.

(** [bind] does not exhaust fuel where its two parts do not. *)
Lemma bind_nofuel_at {A C} (m : Dec A) (f : A -> Dec C) buf :
  fst (m buf) <> Err outOfFuel ->
  (forall a buf', m buf = (Ok a, buf') -> fst (f a buf') <> Err outOfFuel) ->
  fst (bind m f buf) <> Err outOfFuel.
Proof.
  intros Hm Hf. unfold bind.
  destruct (m buf) as [[a|e|] b']; cbn in *; [|congruence|discriminate].
  now apply Hf.
Qed.

Lemma shrinks_Ok {A} (m : Dec A) buf a rest :
  shrinks m -> m buf = (Ok a, rest) -> (List.length rest <= List.length buf)%nat.
Proof. intros Hs E. specialize (Hs buf). now rewrite E in Hs. Qed.

Lemma decodeASPath_loop_fuel (len : Z) : forall fuel p buf,
  (List.length buf < fuel)%nat ->
  fst (decodeASPath_loop fuel len p buf) <> Err outOfFuel.
Proof.
  induction fuel as [|fuel IH]; intros p buf Hfuel; [lia|].
  cbn [decodeASPath_loop]. destruct (p <? len); [|discriminate].
  apply bind_nofuel_at; [apply nofuel_decode_uint8|]. intros ty b1 E1.
  apply consumes_decode_uint8 in E1.
  apply bind_nofuel_at; [apply nofuel_decode_uint8|]. intros cnt b2 E2.
  apply (shrinks_Ok _ _ _ _ shrinks_decode_uint8) in E2.
  destruct (negb (ty =? ASSet) && negb (ty =? ASSequence)); [discriminate|].
  destruct (cnt =? 0); [discriminate|].
  apply bind_nofuel_at; [apply nofuel_decodeASNs|]. intros [p' asns] b3 E3.
  apply (shrinks_Ok _ _ _ _ (shrinks_decodeASNs _ _ _)) in E3.
  apply bind_nofuel_at; [apply IH; lia|]. intros. discriminate.
Qed.

Lemma nofuel_decodeASPath (pa : PathAttribute) : nofuel (decodeASPath pa).
Proof.
  intros buf. unfold decodeASPath.
  apply bind_nofuel_at; [apply decodeASPath_loop_fuel; lia|].
  intros. discriminate.
Qed.

Lemma shrinks_decodeASPath (pa : PathAttribute) : shrinks (decodeASPath pa).
Proof.
  intros buf. unfold decodeASPath.
  apply shrinks_bind; [apply shrinks_decodeASPath_loop|auto with dec].
Qed.

Lemma nofuel_decodeNextHop pa : nofuel (decodeNextHop pa).
Proof. unfold decodeNextHop. dec_solve. Qed.
Lemma shrinks_decodeNextHop pa : shrinks (decodeNextHop pa).
Proof. unfold decodeNextHop. dec_solve. Qed.
Lemma nofuel_decodeUint32 pa : nofuel (decodeUint32 pa).
Proof. unfold decodeUint32. dec_solve. Qed.
Lemma shrinks_decodeUint32 pa : shrinks (decodeUint32 pa).
Proof. unfold decodeUint32. dec_solve. Qed.
#[local] Hint Resolve nofuel_decodeUint32 shrinks_decodeUint32 : dec.
Lemma nofuel_decodeMED pa : nofuel (decodeMED pa).
Proof. unfold decodeMED. dec_solve. Qed.
Lemma shrinks_decodeMED pa : shrinks (decodeMED pa).
Proof. unfold decodeMED. dec_solve. Qed.
Lemma nofuel_decodeLocalPref pa : nofuel (decodeLocalPref pa).
Proof. unfold decodeLocalPref. dec_solve. Qed.
Lemma shrinks_decodeLocalPref pa : shrinks (decodeLocalPref pa).
Proof. unfold decodeLocalPref. dec_solve. Qed.
Lemma nofuel_decodeAggregator pa : nofuel (decodeAggregator pa).
Proof. unfold decodeAggregator. dec_solve. Qed.
Lemma shrinks_decodeAggregator pa : shrinks (decodeAggregator pa).
Proof. unfold decodeAggregator. dec_solve. Qed.

Lemma shrinks_decodeOrigin pa buf :
  (List.length (snd (decodeOrigin pa buf)) <= List.length buf)%nat.
Proof.
  unfold decodeOrigin.
  pose proof (shrinks_decode_uint8 buf) as H1.
  destruct (decode_uint8 buf) as [[o|e|] b1]; cbn in *; try lia.
  pose proof (shrinks_dumpNBytes (u16 (PALength (setValue pa (OriginValue o)) - 1)) b1)
    as H2.
  destruct (dumpNBytes _ b1) as [[u|e|] b2]; cbn in *; lia.
Qed.

#[local] Hint Resolve nofuel_decodeASPath shrinks_decodeASPath
  nofuel_decodeNextHop shrinks_decodeNextHop nofuel_decodeMED shrinks_decodeMED
  nofuel_decodeLocalPref shrinks_decodeLocalPref
  nofuel_decodeAggregator shrinks_decodeAggregator : dec.

Lemma nofuel_decodePathAttrValue pa : nofuel (decodePathAttrValue pa).
Proof.
  unfold decodePathAttrValue.
  destruct (TypeCode pa =? OriginAttr).
  { intros buf. destruct (decodeOrigin pa buf) as [[pa' e] b']. discriminate. }
  dec_solve.
Qed.

Lemma shrinks_decodePathAttrValue pa : shrinks (decodePathAttrValue pa).
Proof.
  unfold decodePathAttrValue.
  destruct (TypeCode pa =? OriginAttr).
  { intros buf. pose proof (shrinks_decodeOrigin pa buf) as H.
    destruct (decodeOrigin pa buf) as [[pa' e] b']. exact H. }
  dec_solve.
Qed.

Lemma nofuel_setLength pa : nofuel (setLength pa).
Proof. unfold setLength. dec_solve. Qed.
Lemma shrinks_setLength pa : shrinks (setLength pa).
Proof. unfold setLength. dec_solve. Qed.

Lemma nofuel_decodePathAttrFlags pa : nofuel (decodePathAttrFlags pa).
Proof. unfold decodePathAttrFlags. dec_solve. Qed.

Lemma consumes_decodePathAttrFlags pa : consumes (decodePathAttrFlags pa).
Proof.
  intros buf a rest. unfold decodePathAttrFlags. intros H.
  apply bind_Ok in H as (flags & b' & E & H). injection H as _ <-.
  now apply consumes_decode_uint8 in E.
Qed.

Lemma decodePathAttrs_loop_fuel (tpal : Z) : forall fuel p buf,
  (List.length buf < fuel)%nat ->
  fst (decodePathAttrs_loop fuel tpal p buf) <> Err outOfFuel.
Proof.
  induction fuel as [|fuel IH]; intros p buf Hfuel; [lia|].
  cbn [decodePathAttrs_loop]. destruct (p <? tpal); [|discriminate].
  apply bind_nofuel_at;
    [apply nofuel_wrap, nofuel_decodePathAttrFlags|]. intros pa b1 E1.
  apply wrap_Ok, consumes_decodePathAttrFlags in E1.
  apply bind_nofuel_at; [apply nofuel_decode_uint8|]. intros tc b2 E2.
  apply (shrinks_Ok _ _ _ _ shrinks_decode_uint8) in E2.
  apply bind_nofuel_at; [apply nofuel_setLength|]. intros [pa' n] b3 E3.
  apply (shrinks_Ok _ _ _ _ (shrinks_setLength _)) in E3.
  apply bind_nofuel_at; [apply nofuel_decodePathAttrValue|]. intros pa'' b4 E4.
  apply (shrinks_Ok _ _ _ _ (shrinks_decodePathAttrValue _)) in E4.
  apply bind_nofuel_at; [apply IH; lia|]. intros. discriminate.
Qed.

Lemma nofuel_decodePathAttrs (tpal : Z) : nofuel (decodePathAttrs tpal).
Proof. intros buf. apply decodePathAttrs_loop_fuel. lia. Qed.

Lemma nofuel_decodeNLRIs (n : Z) : nofuel (decodeNLRIs n).
Proof. intros buf. apply decodeNLRIs_fuel. Qed.

(** [decodeUpdateMsg] returns a message, a Go error or nothing else:
    the fuel given to its loops always suffices. *)
Lemma decodeUpdateMsg_fuel (l : Z) : nofuel (decodeUpdateMsg l).
Proof.
  unfold decodeUpdateMsg.
  apply nofuel_bind; [apply nofuel_decode_uint16|intros wrl].
  apply nofuel_bind; [apply nofuel_decodeNLRIs|intros withdrawn].
  apply nofuel_bind; [apply nofuel_decode_uint16|intros tpal].
  apply nofuel_bind; [apply nofuel_decodePathAttrs|intros attrs].
  apply nofuel_bind; [|intros nlri; apply nofuel_ret].
  destruct (nlriLen l tpal wrl >? 0);
    [apply nofuel_decodeNLRIs|apply nofuel_ret].
Qed.

End Fuel.

(** ** More on the prefix algebra *)

Section SupernetFacts.
Import Net.

Lemma min_cases (a b : Z) :
  (min a b = a /\ a <= b) \/ (min a b = b /\ b <= a).
Proof. unfold min. destruct (Z.ltb_spec a b); lia. Qed.

(** What [GetSupernet] returns for two prefixes of length 1 to 32, in
    terms of the greatest length [L] on which the addresses agree. *)
Lemma GetSupernet_facts (a b : Prefix) :
  0 <= Addr a < 4294967296 -> 0 <= Addr b < 4294967296 ->
  1 <= Pfxlen a <= 32 -> 1 <= Pfxlen b <= 32 ->
  exists L,
    0 <= L <= min (Pfxlen a) (Pfxlen b) - 1 /\
    GetSupernet a b
      = {| Addr := shl32 (shr32 (Addr a) (32 - L)) (32 - L); Pfxlen := L |} /\
    shr32 (Addr a) (32 - L) = shr32 (Addr b) (32 - L) /\
    (forall K, L < K <= min (Pfxlen a) (Pfxlen b) - 1 ->
       shr32 (Addr a) (32 - K) <> shr32 (Addr b) (32 - K)).
Proof.
  intros HAa HAb Hla Hlb.
  set (m := min (Pfxlen a) (Pfxlen b)).
  assert (Hm : 1 <= m <= 32) by (destruct (min_cases (Pfxlen a) (Pfxlen b)); lia).
  destruct (supernet_loop_spec (Addr a) (Addr b) HAa HAb
              (Z.to_nat (m - 1)) 32 (m - 1))
    as (L & HL & Hrun & Hag & Hmax); try lia.
  exists L. split; [lia|]. split; [|split; assumption].
  unfold GetSupernet. fold m.
  rewrite (u8_small (m - 1)) by lia.
  rewrite (u8_small (32 - (m - 1))) by lia.
  rewrite Hrun. rewrite u8_small by lia. reflexivity.
Qed.

(** X1: for prefixes of length 1 to 32, [GetSupernet] does not depend
    on the order of its operands. *)
Theorem GetSupernet_comm (a b : Prefix) :
  0 <= Addr a < 4294967296 -> 0 <= Addr b < 4294967296 ->
  1 <= Pfxlen a <= 32 -> 1 <= Pfxlen b <= 32 ->
  GetSupernet a b = GetSupernet b a.
Proof.
  intros HAa HAb Hla Hlb.
  destruct (GetSupernet_facts a b HAa HAb Hla Hlb) as (L1 & HL1 & -> & Hag1 & Hmax1).
  destruct (GetSupernet_facts b a HAb HAa Hlb Hla) as (L2 & HL2 & -> & Hag2 & Hmax2).
  assert (Hmin : min (Pfxlen a) (Pfxlen b) = min (Pfxlen b) (Pfxlen a)).
  { destruct (min_cases (Pfxlen a) (Pfxlen b)), (min_cases (Pfxlen b) (Pfxlen a)); lia. }
  rewrite Hmin in *.
  assert (L1 = L2) as ->.
  { destruct (Z.lt_trichotomy L1 L2) as [Hlt|[Heq|Hgt]]; [|assumption|].
    - exfalso. apply (Hmax1 L2); [lia|]. now symmetry.
    - exfalso. apply (Hmax2 L1); [lia|]. now symmetry. }
  now rewrite Hag1.
Qed.

Lemma GetSupernet_comm_witness :
  GetSupernet (NewPfx 167772160 8) (NewPfx 191134464 24)
  = GetSupernet (NewPfx 191134464 24) (NewPfx 167772160 8).
Proof.
  apply GetSupernet_comm; cbn [Addr Pfxlen]; lia.
Defined.

(** X2: [Contains] only accepts strictly longer prefixes, and it
    accepts every strictly longer prefix that agrees with the receiver
    on its first [pfxlen] bits. *)
Theorem Contains_accepts_subnets (pfx x : Prefix) :
  (Contains pfx x = true -> Pfxlen x > Pfxlen pfx) /\
  (0 <= Pfxlen pfx <= 32 -> Pfxlen x > Pfxlen pfx ->
   shr32 (Addr x) (32 - Pfxlen pfx) = shr32 (Addr pfx) (32 - Pfxlen pfx) ->
   Contains pfx x = true).
Proof.
  split.
  - unfold Contains. destruct (Z.leb_spec (Pfxlen x) (Pfxlen pfx)); [discriminate|lia].
  - intros Hl Hlen Htop. apply contains_spec_Contains; [assumption|]. now split.
Qed.

End SupernetFacts.

Lemma Contains_accepts_subnets_witness :
  Net.Contains (Net.NewPfx 167772160 8) (Net.NewPfx 171966464 10) = true.
Proof.
  apply (proj2 (Contains_accepts_subnets (Net.NewPfx 167772160 8)
                  (Net.NewPfx 171966464 10)));
    cbn; [lia|lia|reflexivity].
Defined.

(** ** More on the trie *)

Section InsertFacts.
Import Net LPM.

Lemma getBitUint32_testbit (x pos : Z) :
  1 <= pos <= 32 -> getBitUint32 x pos = Z.testbit x (32 - pos).
Proof.
  intros Hpos. unfold getBitUint32.
  rewrite u8_small by lia. rewrite shl32_1 by lia.
  destruct (Z.ltb_spec (32 - pos) 32); [|lia].
  rewrite land_pow2 by lia.
  assert (0 < 2 ^ (32 - pos)) by (apply Z.pow_pos_nonneg; lia).
  destruct (Z.testbit x (32 - pos)).
  - destruct (Z.eqb_spec (2 ^ (32 - pos)) 0); [lia|reflexivity].
  - reflexivity.
Qed.

(** Two numbers that agree above bit [s] and on bit [s] agree from bit
    [s] on. *)
Lemma bit_decides (x y s : Z) :
  0 <= s ->
  shr32 x (s + 1) = shr32 y (s + 1) ->
  Z.testbit x s = Z.testbit y s ->
  shr32 x s = shr32 y s.
Proof.
  intros Hs Hhi Hbit.
  rewrite <- (shr_testbit_0 x s), <- (shr_testbit_0 y s) in Hbit by lia.
  unfold shr32 in *.
  rewrite <- (Z.shiftr_shiftr x s 1), <- (Z.shiftr_shiftr y s 1) in Hhi by lia.
  rewrite <- !Z.div2_spec in Hhi.
  rewrite !Z.bit0_odd in Hbit.
  rewrite (Z.div2_odd (Z.shiftr x s)), (Z.div2_odd (Z.shiftr y s)).
  now rewrite Hhi, Hbit.
Qed.

Lemma canonical_addr (p : Prefix) :
  canonical p ->
  Addr p = shl32 (shr32 (Addr p) (32 - Pfxlen p)) (32 - Pfxlen p).
Proof.
  intros (HA & HL & Hmod). unfold shl32, shr32, u32.
  rewrite Z.shiftr_div_pow2, Z.shiftl_mul_pow2 by lia.
  assert (Hpos : 0 < 2 ^ (32 - Pfxlen p)) by (apply Z.pow_pos_nonneg; lia).
  pose proof (Z.div_mod (Addr p) (2 ^ (32 - Pfxlen p)) ltac:(lia)) as Hdm.
  rewrite Hmod, Z.add_0_r in Hdm.
  rewrite Z.mul_comm, <- Hdm. symmetry. apply Z.mod_small. exact HA.
Qed.

Lemma canonical_supernet (A L : Z) :
  0 <= A < 4294967296 -> 0 <= L <= 32 ->
  canonical {| Addr := shl32 (shr32 A (32 - L)) (32 - L); Pfxlen := L |}.
Proof.
  intros HA HL. unfold canonical. cbn [Addr Pfxlen].
  pose proof (shl_shr_le A (32 - L) ltac:(lia) ltac:(lia)) as Hle.
  unfold shl32, shr32, u32. rewrite Z.mod_small by lia.
  split; [lia|]. split; [lia|].
  rewrite Z.shiftl_mul_pow2 by lia. apply Z.mod_mul.
  apply Z.pow_nonzero; lia.
Qed.

(** The case of [insert] that builds a dummy: the node's prefix [q] and
    the new prefix [p] are different and neither is accepted by
    [Contains] for the other.  For canonical prefixes the supernet is
    then shorter than both, canonical, accepted by [Contains] for both,
    and the two prefixes differ on the bit that follows it. *)
Lemma supernode_case (p q : Prefix) :
  canonical p -> canonical q ->
  Equal q p = false -> Contains q p = false -> Contains p q = false ->
  exists L,
    GetSupernet p q
      = {| Addr := shl32 (shr32 (Addr p) (32 - L)) (32 - L); Pfxlen := L |} /\
    0 <= L /\ L < Pfxlen p /\ L < Pfxlen q /\
    canonical (GetSupernet p q) /\
    Contains (GetSupernet p q) p = true /\
    Contains (GetSupernet p q) q = true /\
    getBitUint32 (Addr q) (u8 (L + 1)) = negb (getBitUint32 (Addr p) (u8 (L + 1))).
Proof.
  intros Hp Hq Heq Hqp Hpq.
  pose proof Hp as (HAp & HLp & Hmodp). pose proof Hq as (HAq & HLq & Hmodq).
  (* neither prefix is the default route *)
  assert (Hp1 : 1 <= Pfxlen p /\ 1 <= Pfxlen q).
  { assert (Hz : forall a, canonical a -> Pfxlen a = 0 -> Addr a = 0).
    { intros a (HA & _ & Hm) H0. rewrite H0 in Hm. change (2 ^ (32 - 0)) with 4294967296 in Hm.
      rewrite Z.mod_small in Hm; lia. }
    destruct (Z.eq_dec (Pfxlen q) 0) as [Hq0|Hq0].
    - destruct (Z.eq_dec (Pfxlen p) 0) as [Hp0|Hp0].
      + exfalso. unfold Equal in Heq.
        rewrite (Hz p Hp Hp0), (Hz q Hq Hq0), Hp0, Hq0 in Heq. discriminate.
      + exfalso. assert (Contains q p = true); [|congruence].
        apply Contains_single_bit; [lia|]. split; [lia|now left].
    - destruct (Z.eq_dec (Pfxlen p) 0) as [Hp0|Hp0]; [|lia].
      exfalso. assert (Contains p q = true); [|congruence].
      apply Contains_single_bit; [lia|]. split; [lia|now left]. }
  destruct (GetSupernet_facts p q HAp HAq ltac:(lia) ltac:(lia))
    as (L & HL & Hr & Hag & Hmax).
  exists L. rewrite Hr.
  destruct (min_cases (Pfxlen p) (Pfxlen q)) as [[Hm Hle]|[Hm Hle]];
    rewrite Hm in HL, Hmax.
  all: split; [reflexivity|]; split; [lia|]; split; [lia|]; split; [lia|];
    split; [apply canonical_supernet; lia|].
  all: split;
    [apply contains_spec_Contains; cbn [Pfxlen Addr]; [lia|];
     split; cbn [Pfxlen Addr]; [lia|]; symmetry; apply shr_shl_shr; lia|].
  all: split;
    [apply contains_spec_Contains; cbn [Pfxlen Addr]; [lia|];
     split; cbn [Pfxlen Addr]; [lia|];
     rewrite shr_shl_shr by lia; symmetry; exact Hag|].
  all: rewrite u8_small by lia; rewrite !getBitUint32_testbit by lia;
    replace (32 - (L + 1)) with (31 - L) by lia.
  all: destruct (Bool.bool_dec (Z.testbit (Addr q) (31 - L))
                   (Z.testbit (Addr p) (31 - L))) as [Hbit|Hbit];
    [exfalso|destruct (Z.testbit (Addr q) (31 - L)), (Z.testbit (Addr p) (31 - L));
             cbn; congruence].
  all: assert (Hlow : shr32 (Addr p) (31 - L) = shr32 (Addr q) (31 - L))
    by (apply bit_decides; [lia| |now symmetry];
        replace (31 - L + 1) with (32 - L) by lia; exact Hag).
  - (* the shorter prefix is [p] *)
    destruct (Z.eq_dec L (Pfxlen p - 1)) as [HLeq|HLne].
    + destruct (Z.eq_dec (Pfxlen p) (Pfxlen q)) as [Hsame|Hdiff].
      * (* same length: the addresses would be equal *)
        assert (HA : Addr p = Addr q).
        { rewrite (canonical_addr p Hp), (canonical_addr q Hq), <- Hsame.
          replace (32 - Pfxlen p) with (31 - L) by lia. now rewrite Hlow. }
        unfold Equal in Heq. rewrite HA, Hsame, !Z.eqb_refl in Heq. discriminate.
      * assert (Contains p q = true); [|congruence].
        apply Contains_single_bit; [lia|]. split; [lia|right].
        replace (32 - Pfxlen p) with (31 - L) by lia. now symmetry.
    + apply (Hmax (L + 1)); [lia|].
      replace (32 - (L + 1)) with (31 - L) by lia. exact Hlow.
  - (* the shorter prefix is [q] *)
    destruct (Z.eq_dec L (Pfxlen q - 1)) as [HLeq|HLne].
    + destruct (Z.eq_dec (Pfxlen p) (Pfxlen q)) as [Hsame|Hdiff].
      * (* same length: the addresses would be equal *)
        assert (HA : Addr p = Addr q).
        { rewrite (canonical_addr p Hp), (canonical_addr q Hq), <- Hsame.
          replace (32 - Pfxlen p) with (31 - L) by lia. now rewrite Hlow. }
        unfold Equal in Heq. rewrite HA, Hsame, !Z.eqb_refl in Heq. discriminate.
      * assert (Contains q p = true); [|congruence].
        apply Contains_single_bit; [lia|]. split; [lia|right].
        replace (32 - Pfxlen q) with (31 - L) by lia. exact Hbit.
    + apply (Hmax (L + 1)); [lia|].
      replace (32 - (L + 1)) with (31 - L) by lia. exact Hlow.
Qed.

Lemma Contains_accepts_len (a b : Prefix) :
  Contains a b = true -> Pfxlen a < Pfxlen b.
Proof.
  unfold Contains. destruct (Z.leb_spec (Pfxlen b) (Pfxlen a)); [discriminate|lia].
Qed.

Lemma Equal_refl (p : Prefix) : Equal p p = true.
Proof. unfold Equal. now rewrite !Z.eqb_refl. Qed.

Lemma insert_eq (n : node) (p : Prefix) :
  insert n p =
  if Equal (pfx n) p then n
  else if negb (Contains (pfx n) p) then
    if Contains p (pfx n)
    then insertBefore n p (u8 (u8 (Pfxlen (pfx n) - skip n) - 1))
    else newSuperNode n p
  else if negb (getBitUint32 (Addr p) (u8 (Pfxlen (pfx n) + 1)))
  then insertLow insert n (l n) p (Pfxlen (pfx n))
  else insertHigh insert n (h n) p (Pfxlen (pfx n)).
Proof. destruct n; reflexivity. Qed.

Lemma marks_In (x : Prefix * bool) sk d q lo hi :
  In x (marks (Node sk d q lo hi)) <->
  x = (q, d) \/ In x (marks_opt lo) \/ In x (marks_opt hi).
Proof.
  cbn [marks]. fold (marks_opt lo). fold (marks_opt hi).
  cbn [In]. rewrite in_app_iff. intuition congruence.
Qed.

Lemma marks_node (n : node) :
  marks n = (pfx n, dummy n) :: marks_opt (l n) ++ marks_opt (h n).
Proof. destruct n; reflexivity. Qed.

Lemma marks_set_skip (n : node) (k : Z) : marks (set_skip n k) = marks n.
Proof. destruct n; reflexivity. Qed.

Lemma reals_marks (p : Prefix) (n : node) :
  In p (reals n) <-> In (p, false) (marks n).
Proof.
  induction n as [sk d q lo hi IHl IHh] using node_ind.
  rewrite marks_In. cbn [reals]. rewrite !in_app_iff.
  assert (Hl : In p match lo with Some c => reals c | None => [] end
               <-> In (p, false) (marks_opt lo)).
  { destruct lo as [c|]; [apply (IHl c eq_refl)|reflexivity]. }
  assert (Hh : In p match hi with Some c => reals c | None => [] end
               <-> In (p, false) (marks_opt hi)).
  { destruct hi as [c|]; [apply (IHh c eq_refl)|reflexivity]. }
  rewrite Hl, Hh.
  destruct d; cbn [In]; intuition congruence.
Qed.

(** The marks of the results of the three ways [insert] grows a trie. *)
Lemma marks_insertBefore (n : node) (p : Prefix) (k : Z) (x : Prefix * bool) :
  In x (marks (insertBefore n p k)) <-> x = (p, false) \/ In x (marks n).
Proof.
  unfold insertBefore.
  destruct (negb (getBitUint32 (Addr p) k)); unfold set_l, set_h, newNode;
    cbn [skip dummy pfx l h]; rewrite marks_In; cbn [marks_opt];
    rewrite marks_set_skip; cbn [In]; intuition.
Qed.

Lemma marks_newSuperNode_new (n : node) (p : Prefix) :
  In (p, false) (marks (newSuperNode n p)).
Proof.
  unfold newSuperNode, insertChildren, newNode, set_l, set_h.
  cbn [skip dummy pfx l h].
  destruct (negb (getBitUint32 (Addr (pfx n)) _)); cbn [skip dummy pfx l h];
    destruct (negb (getBitUint32 (Addr p) _));
    cbn [skip dummy pfx l h]; rewrite marks_In; cbn [marks_opt marks In app]; auto.
Qed.

Lemma marks_newSuperNode (n : node) (p : Prefix) (x : Prefix * bool) :
  let r := GetSupernet p (pfx n) in
  getBitUint32 (Addr (pfx n)) (u8 (Pfxlen r + 1))
    = negb (getBitUint32 (Addr p) (u8 (Pfxlen r + 1))) ->
  In x (marks (newSuperNode n p)) <->
  x = (r, true) \/ x = (p, false) \/ In x (marks n).
Proof.
  cbv zeta. intros Hbits.
  unfold newSuperNode, insertChildren, newNode, set_l, set_h.
  cbn [skip dummy pfx l h]. rewrite Hbits.
  destruct (getBitUint32 (Addr p) _) eqn:Hb; cbn [negb];
    cbn [skip dummy pfx l h]; rewrite ?Hb; cbn [negb skip dummy pfx l h];
    rewrite marks_In; cbn [marks_opt];
    rewrite marks_set_skip; cbn [marks In app]; intuition.
Qed.

(** After [insert], the new prefix is carried by a real node, or the
    trie is exactly as it was and a dummy node carries the prefix. *)
Lemma insert_stores_or_unchanged (n : node) (p : Prefix) :
  In (p, false) (marks (insert n p)) \/
  (insert n p = n /\ In (p, true) (marks n)).
Proof.
  induction n as [sk d q lo hi IHl IHh] using node_ind.
  rewrite insert_eq. cbn [pfx skip l h].
  destruct (Equal q p) eqn:E.
  { apply Equal_eq in E. subst q. destruct d.
    - right. split; [reflexivity|]. apply marks_In. now left.
    - left. apply marks_In. now left. }
  destruct (Contains q p) eqn:C; cbn [negb].
  2: { left. destruct (Contains p q).
       - apply marks_insertBefore. now left.
       - apply marks_newSuperNode_new. }
  destruct (negb (getBitUint32 (Addr p) _)).
  - unfold insertLow. destruct lo as [c|].
    + destruct (IHl c eq_refl) as [H|[H1 H2]].
      * left. unfold set_l. cbn [skip dummy pfx l h]. apply marks_In.
        right. left. exact H.
      * right. rewrite H1. split; [reflexivity|]. apply marks_In.
        right. left. exact H2.
    + left. unfold set_l, newNode. cbn [skip dummy pfx l h]. apply marks_In.
      right. left. now left.
  - unfold insertHigh. destruct hi as [c|].
    + destruct (IHh c eq_refl) as [H|[H1 H2]].
      * left. unfold set_h. cbn [skip dummy pfx l h]. apply marks_In.
        right. right. exact H.
      * right. rewrite H1. split; [reflexivity|]. apply marks_In.
        right. right. exact H2.
    + left. unfold set_h, newNode. cbn [skip dummy pfx l h]. apply marks_In.
      right. right. now left.
Qed.

(** Inserting a canonical prefix into a trie of canonical prefixes
    keeps every node, with its prefix and its dummy flag, and the
    prefixes stay canonical. *)
Lemma insert_keeps_marks (p : Prefix) (n : node) :
  canonical p ->
  (forall x, In x (marks n) -> canonical (fst x)) ->
  incl (marks n) (marks (insert n p)) /\
  (forall x, In x (marks (insert n p)) -> canonical (fst x)).
Proof.
  intros Hp. induction n as [sk d q lo hi IHl IHh] using node_ind. intros Hn.
  assert (Hq : canonical q) by (apply (Hn (q, d)), marks_In; now left).
  rewrite insert_eq. cbn [pfx skip l h].
  destruct (Equal q p) eqn:E; [split; [apply incl_refl|assumption]|].
  destruct (Contains q p) eqn:C; cbn [negb].
  2: { destruct (Contains p q) eqn:C'.
       - split.
         + intros x Hx. apply marks_insertBefore. now right.
         + intros x Hx. apply marks_insertBefore in Hx.
           destruct Hx as [->|Hx]; [exact Hp|now apply Hn].
       - destruct (supernode_case p q Hp Hq E C C')
           as (L & Hr & HL0 & HLp & HLq & Hcan & _ & _ & Hbits).
         assert (Hbits' :
                   getBitUint32 (Addr q) (u8 (Pfxlen (GetSupernet p q) + 1))
                   = negb (getBitUint32 (Addr p) (u8 (Pfxlen (GetSupernet p q) + 1)))).
         { rewrite Hr. exact Hbits. }
         split.
         + intros x Hx.
           apply (marks_newSuperNode (Node sk d q lo hi) p x Hbits').
           now right; right.
         + intros x Hx.
           apply (marks_newSuperNode (Node sk d q lo hi) p x Hbits') in Hx.
           destruct Hx as [->|[->|Hx]]; [exact Hcan|exact Hp|now apply Hn]. }
  assert (Hhi : forall x, In x (marks_opt hi) -> canonical (fst x)).
  { intros x Hx. apply Hn, marks_In. auto. }
  assert (Hlo : forall x, In x (marks_opt lo) -> canonical (fst x)).
  { intros x Hx. apply Hn, marks_In. auto. }
  destruct (negb (getBitUint32 (Addr p) _)).
  - unfold insertLow. destruct lo as [c|]; unfold set_l, newNode;
      cbn [skip dummy pfx l h].
    + destruct (IHl c eq_refl Hlo) as [Hincl Hcan].
      split.
      * intros x Hx. apply marks_In in Hx. apply marks_In.
        destruct Hx as [Hx|[Hx|Hx]];
          [now left|right; left; now apply Hincl|now right; right].
      * intros x Hx. apply marks_In in Hx.
        destruct Hx as [->|[Hx|Hx]]; [exact Hq|now apply Hcan|now apply Hhi].
    + split.
      * intros x Hx. apply marks_In in Hx. apply marks_In.
        destruct Hx as [Hx|[[]|Hx]]; [now left|now right; right].
      * intros x Hx. apply marks_In in Hx.
        destruct Hx as [->|[[<-|[]]|Hx]]; [exact Hq|exact Hp|now apply Hhi].
  - unfold insertHigh. destruct hi as [c|]; unfold set_h, newNode;
      cbn [skip dummy pfx l h].
    + destruct (IHh c eq_refl Hhi) as [Hincl Hcan].
      split.
      * intros x Hx. apply marks_In in Hx. apply marks_In.
        destruct Hx as [Hx|[Hx|Hx]];
          [now left|now right; left|right; right; now apply Hincl].
      * intros x Hx. apply marks_In in Hx.
        destruct Hx as [->|[Hx|Hx]]; [exact Hq|now apply Hlo|now apply Hcan].
    + split.
      * intros x Hx. apply marks_In in Hx. apply marks_In.
        destruct Hx as [Hx|[Hx|[]]]; [now left|now right; left].
      * intros x Hx. apply marks_In in Hx.
        destruct Hx as [->|[Hx|[<-|[]]]]; [exact Hq|now apply Hlo|exact Hp].
Qed.

(** X4: inserting a canonical prefix into a trie whose prefixes are
    canonical loses none of the stored real prefixes. *)
Theorem insert_keeps_stored (n : node) (p : Prefix) :
  canonical p ->
  (forall x, In x (marks n) -> canonical (fst x)) ->
  incl (dumpPfxs n []) (dumpPfxs (insert n p) []).
Proof.
  intros Hp Hn q Hq. rewrite dumpPfxs_reals in *. cbn [app] in *.
  apply reals_marks. apply reals_marks in Hq.
  now apply (insert_keeps_marks p n Hp Hn).
Qed.

Lemma insert_keeps_stored_witness :
  incl (dumpPfxs (newNode (NewPfx 167772160 8) 8 false) [])
       (dumpPfxs (insert (newNode (NewPfx 167772160 8) 8 false)
                         (NewPfx 191134464 24)) []).
Proof.
  apply insert_keeps_stored.
  - unfold canonical. cbn [Addr Pfxlen]. repeat split; lia.
  - intros x [<-|[]]. unfold canonical. cbn [fst Addr Pfxlen].
    repeat split; lia.
Defined.

(** Without the hypothesis the old prefix can be lost: 10.0.0.1/8 takes
    the slot of 10.0.0.0/8 under the dummy 10.0.0.0/7. *)
Example insert_loses_noncanonical :
  dumpPfxs (insert (newNode (NewPfx 167772160 8) 8 false) (NewPfx 167772161 8)) []
  = [NewPfx 167772161 8].
Proof. reflexivity. Qed.

Lemma get_eq (n : node) (p : Prefix) :
  get n p =
  if Equal (pfx n) p then (if dummy n then None else Some n)
  else if Pfxlen (pfx n) >? Pfxlen p then None
  else if negb (getBitUint32 (Addr p) (u8 (Pfxlen (pfx n) + 1)))
  then match l n with None => None | Some c => get c p end
  else match h n with None => None | Some c => get c p end.
Proof. destruct n; reflexivity. Qed.

Lemma Equal_len (a b : Prefix) : Pfxlen a <> Pfxlen b -> Equal a b = false.
Proof.
  intros H. unfold Equal. apply Z.eqb_neq in H. rewrite H. apply andb_false_r.
Qed.

Lemma get_leaf (p : Prefix) (k : Z) :
  get (newNode p k false) p = Some (newNode p k false).
Proof. rewrite get_eq. cbn [pfx dummy newNode]. now rewrite Equal_refl. Qed.

Lemma insert_leaf (p : Prefix) (k : Z) (d : bool) :
  insert (newNode p k d) p = newNode p k d.
Proof. rewrite insert_eq. cbn [pfx newNode]. now rewrite Equal_refl. Qed.

(** The shape of a new dummy: it carries the supernet, and the new leaf
    hangs below it on the side of its bit after the supernet. *)
Lemma newSuperNode_shape (n : node) (p : Prefix) :
  let r := GetSupernet p (pfx n) in
  let s := newSuperNode n p in
  pfx s = r /\ dummy s = true /\
  exists k,
    if negb (getBitUint32 (Addr p) (u8 (Pfxlen r + 1)))
    then l s = Some (newNode p k false)
    else h s = Some (newNode p k false).
Proof.
  cbv zeta. unfold newSuperNode, insertChildren, newNode, set_l, set_h.
  cbn [skip dummy pfx l h].
  destruct (negb (getBitUint32 (Addr (pfx n)) _)); cbn [skip dummy pfx l h];
    (split; [destruct (negb (getBitUint32 (Addr p) _)); reflexivity|]);
    (split; [destruct (negb (getBitUint32 (Addr p) _)); reflexivity|]);
    eexists; destruct (negb (getBitUint32 (Addr p) _)); reflexivity.
Qed.

Lemma set_l_same (n : node) : set_l n (l n) = n.
Proof. destruct n; reflexivity. Qed.
Lemma set_h_same (n : node) : set_h n (h n) = n.
Proof. destruct n; reflexivity. Qed.

(** X5: after inserting a canonical prefix into a trie of canonical
    prefixes, [get] finds a real node carrying it; or else the trie is
    unchanged, [get] finds nothing and a dummy node carries the
    prefix. *)
Theorem get_after_insert (n : node) (p : Prefix) :
  canonical p ->
  (forall x, In x (marks n) -> canonical (fst x)) ->
  (exists m, get (insert n p) p = Some m /\ pfx m = p /\ dummy m = false) \/
  (insert n p = n /\ get n p = None /\ In (p, true) (marks n)).
Proof.
  intros Hp. induction n as [sk d q lo hi IHl IHh] using node_ind. intros Hn.
  assert (Hq : canonical q) by (apply (Hn (q, d)), marks_In; now left).
  assert (Hhi : forall x, In x (marks_opt hi) -> canonical (fst x)).
  { intros x Hx. apply Hn, marks_In. auto. }
  assert (Hlo : forall x, In x (marks_opt lo) -> canonical (fst x)).
  { intros x Hx. apply Hn, marks_In. auto. }
  rewrite insert_eq. cbn [pfx skip l h].
  destruct (Equal q p) eqn:E.
  { rewrite get_eq. cbn [pfx dummy]. rewrite E. destruct d.
    - right. split; [reflexivity|]. split; [reflexivity|].
      apply Equal_eq in E. subst q. apply marks_In. now left.
    - left. eexists. split; [reflexivity|]. split; [now apply Equal_eq|reflexivity]. }
  destruct (Contains q p) eqn:C; cbn [negb].
  2: { left. destruct (Contains p q) eqn:C'.
       - eexists. rewrite get_eq.
         assert (Hs : pfx (insertBefore (Node sk d q lo hi) p
                             (u8 (u8 (Pfxlen q - sk) - 1))) = p /\
                      dummy (insertBefore (Node sk d q lo hi) p
                               (u8 (u8 (Pfxlen q - sk) - 1))) = false).
         { unfold insertBefore. destruct (negb _); split; reflexivity. }
         destruct Hs as [Hs1 Hs2]. rewrite Hs1, Hs2, Equal_refl.
         split; [reflexivity|]. now split.
       - destruct (supernode_case p q Hp Hq E C C')
           as (L & Hr & HL0 & HLp & HLq & _).
         destruct (newSuperNode_shape (Node sk d q lo hi) p) as (Hpfx & _ & k & Hslot).
         cbn [pfx] in Hpfx, Hslot.
         exists (newNode p k false). rewrite get_eq, Hpfx.
         rewrite Equal_len by (rewrite Hr; cbn [Pfxlen]; lia).
         rewrite Z.gtb_ltb.
         destruct (Z.ltb_spec (Pfxlen p) (Pfxlen (GetSupernet p q)));
           [rewrite Hr in *; cbn [Pfxlen] in *; lia|].
         destruct (negb (getBitUint32 (Addr p) _)); rewrite Hslot, get_leaf;
           repeat split. }
  apply Contains_accepts_len in C.
  rewrite (get_eq (if negb _ then _ else _)).
  destruct (negb (getBitUint32 (Addr p) (u8 (Pfxlen q + 1)))) eqn:Hb.
  - unfold insertLow. destruct lo as [c|]; unfold set_l, newNode;
      cbn [skip dummy pfx l h]; rewrite E, Hb, Z.gtb_ltb;
      (destruct (Z.ltb_spec (Pfxlen p) (Pfxlen q)); [lia|]).
    + destruct (IHl c eq_refl Hlo) as [IH|(H1 & H2 & H3)].
      * now left.
      * right. rewrite H1. split; [reflexivity|].
        split; [|apply marks_In; now right; left].
        rewrite get_eq. cbn [pfx dummy l h]. rewrite E, Hb, Z.gtb_ltb.
        destruct (Z.ltb_spec (Pfxlen p) (Pfxlen q)); [lia|exact H2].
    + left. eexists. rewrite get_eq. cbn [pfx dummy]. rewrite Equal_refl.
      repeat split.
  - unfold insertHigh. destruct hi as [c|]; unfold set_h, newNode;
      cbn [skip dummy pfx l h]; rewrite E, Hb, Z.gtb_ltb;
      (destruct (Z.ltb_spec (Pfxlen p) (Pfxlen q)); [lia|]).
    + destruct (IHh c eq_refl Hhi) as [IH|(H1 & H2 & H3)].
      * now left.
      * right. rewrite H1. split; [reflexivity|].
        split; [|apply marks_In; now right; right].
        rewrite get_eq. cbn [pfx dummy l h]. rewrite E, Hb, Z.gtb_ltb.
        destruct (Z.ltb_spec (Pfxlen p) (Pfxlen q)); [lia|exact H2].
    + left. eexists. rewrite get_eq. cbn [pfx dummy]. rewrite Equal_refl.
      repeat split.
Qed.

Lemma canonical_10_8 : canonical (NewPfx 167772160 8).
Proof. unfold canonical. cbn [Addr Pfxlen]. repeat split; lia. Defined.

Lemma canonical_11_100_123_24 : canonical (NewPfx 191134464 24).
Proof. unfold canonical. cbn [Addr Pfxlen]. repeat split; lia. Defined.

Lemma get_after_insert_witness :
  (exists m,
     get (insert (newNode (NewPfx 167772160 8) 8 false) (NewPfx 191134464 24))
         (NewPfx 191134464 24) = Some m /\
     pfx m = NewPfx 191134464 24 /\ dummy m = false) \/
  (insert (newNode (NewPfx 167772160 8) 8 false) (NewPfx 191134464 24)
     = newNode (NewPfx 167772160 8) 8 false /\
   get (newNode (NewPfx 167772160 8) 8 false) (NewPfx 191134464 24) = None /\
   In (NewPfx 191134464 24, true) (marks (newNode (NewPfx 167772160 8) 8 false))).
Proof.
  apply get_after_insert.
  - exact canonical_11_100_123_24.
  - intros x [<-|[]]. exact canonical_10_8.
Defined.

(** X6: inserting a canonical prefix a second time leaves the trie as
    the first insertion made it. *)
Theorem insert_idempotent (n : node) (p : Prefix) :
  canonical p ->
  (forall x, In x (marks n) -> canonical (fst x)) ->
  insert (insert n p) p = insert n p.
Proof.
  intros Hp. induction n as [sk d q lo hi IHl IHh] using node_ind. intros Hn.
  assert (Hq : canonical q) by (apply (Hn (q, d)), marks_In; now left).
  assert (Hhi : forall x, In x (marks_opt hi) -> canonical (fst x)).
  { intros x Hx. apply Hn, marks_In. auto. }
  assert (Hlo : forall x, In x (marks_opt lo) -> canonical (fst x)).
  { intros x Hx. apply Hn, marks_In. auto. }
  rewrite (insert_eq (Node sk d q lo hi)). cbn [pfx skip l h].
  destruct (Equal q p) eqn:E.
  { rewrite insert_eq. cbn [pfx]. now rewrite E. }
  destruct (Contains q p) eqn:C; cbn [negb].
  2: { destruct (Contains p q) eqn:C'.
       - rewrite insert_eq.
         assert (Hs : pfx (insertBefore (Node sk d q lo hi) p
                             (u8 (u8 (Pfxlen q - sk) - 1))) = p).
         { unfold insertBefore. destruct (negb _); reflexivity. }
         now rewrite Hs, Equal_refl.
       - destruct (supernode_case p q Hp Hq E C C')
           as (L & Hr & HL0 & HLp & HLq & _ & Hcp & _).
         destruct (newSuperNode_shape (Node sk d q lo hi) p) as (Hpfx & _ & k & Hslot).
         cbn [pfx] in Hpfx, Hslot.
         rewrite insert_eq, Hpfx, Hcp. cbn [negb].
         rewrite Equal_len by (rewrite Hr; cbn [Pfxlen]; lia).
         destruct (negb (getBitUint32 (Addr p) _)).
         + unfold insertLow. rewrite Hslot, insert_leaf, <- Hslot.
           apply set_l_same.
         + unfold insertHigh. rewrite Hslot, insert_leaf, <- Hslot.
           apply set_h_same. }
  destruct (negb (getBitUint32 (Addr p) (u8 (Pfxlen q + 1)))) eqn:Hb.
  - unfold insertLow. destruct lo as [c|]; unfold set_l;
      cbn [skip dummy pfx l h].
    + rewrite (insert_eq (Node sk d q (Some (insert c p)) hi)).
      cbn [skip dummy pfx l h]. rewrite E, C, Hb. cbn [negb].
      unfold insertLow, set_l. cbn [skip dummy pfx l h].
      now rewrite (IHl c eq_refl Hlo).
    + match goal with
      | |- insert ?m p = _ => rewrite (insert_eq m)
      end.
      cbn [skip dummy pfx l h]. rewrite E, C, Hb. cbn [negb].
      unfold insertLow, set_l. cbn [skip dummy pfx l h].
      now rewrite (insert_leaf p _ false).
  - unfold insertHigh. destruct hi as [c|]; unfold set_h;
      cbn [skip dummy pfx l h].
    + rewrite (insert_eq (Node sk d q lo (Some (insert c p)))).
      cbn [skip dummy pfx l h]. rewrite E, C, Hb. cbn [negb].
      unfold insertHigh, set_h. cbn [skip dummy pfx l h].
      now rewrite (IHh c eq_refl Hhi).
    + match goal with
      | |- insert ?m p = _ => rewrite (insert_eq m)
      end.
      cbn [skip dummy pfx l h]. rewrite E, C, Hb. cbn [negb].
      unfold insertHigh, set_h. cbn [skip dummy pfx l h].
      now rewrite (insert_leaf p _ false).
Qed.

Lemma insert_idempotent_witness :
  insert (insert (newNode (NewPfx 167772160 8) 8 false) (NewPfx 191134464 24))
         (NewPfx 191134464 24)
  = insert (newNode (NewPfx 167772160 8) 8 false) (NewPfx 191134464 24).
Proof.
  apply insert_idempotent.
  - exact canonical_11_100_123_24.
  - intros x [<-|[]]. exact canonical_10_8.
Defined.

Lemma dumpPfxs_opt_marks (p : Prefix) (r : option node) :
  In p (dumpPfxs_opt r []) <-> In (p, false) (marks_opt r).
Proof.
  destruct r as [n|]; cbn [dumpPfxs_opt marks_opt]; [|reflexivity].
  rewrite dumpPfxs_reals. cbn [app]. apply reals_marks.
Qed.

(** Inserting canonical prefixes one after the other, from any trie of
    canonical prefixes. *)
Lemma fold_Insert_marks (ps : list Prefix) : forall t,
  (forall p, In p ps -> canonical p) ->
  (forall x, In x (marks_opt (root t)) -> canonical (fst x)) ->
  let t' := fold_left Insert ps t in
  (forall x, In x (marks_opt (root t')) -> canonical (fst x)) /\
  incl (marks_opt (root t)) (marks_opt (root t')) /\
  (forall p, In p ps ->
     In (p, false) (marks_opt (root t')) \/ In (p, true) (marks_opt (root t'))).
Proof.
  induction ps as [|p ps IH]; intros t Hps Ht; cbn [fold_left].
  - split; [assumption|]. split; [apply incl_refl|intros p []].
  - assert (Hp : canonical p) by (apply Hps; now left).
    assert (Hstep :
              (forall x, In x (marks_opt (root (Insert t p))) -> canonical (fst x)) /\
              incl (marks_opt (root t)) (marks_opt (root (Insert t p))) /\
              (In (p, false) (marks_opt (root (Insert t p))) \/
               In (p, true) (marks_opt (root (Insert t p))))).
    { unfold Insert. destruct (root t) as [r|] eqn:Er; cbn [root marks_opt].
      - destruct (insert_keeps_marks p r Hp Ht) as [Hincl Hcan].
        split; [assumption|]. split; [assumption|].
        destruct (insert_stores_or_unchanged r p) as [H|[H1 H2]]; [now left|].
        right. now rewrite H1.
      - split; [intros x [<-|[]]; exact Hp|].
        split; [intros x []|]. left. now left. }
    destruct Hstep as (Hcan1 & Hincl1 & Hp1).
    destruct (IH (Insert t p) (fun q Hq => Hps q (or_intror Hq)) Hcan1)
      as (Hcan & Hincl & Hin).
    split; [assumption|].
    split; [intros x Hx; apply Hincl, Hincl1, Hx|].
    intros q [<-|Hq]; [|now apply Hin].
    destruct Hp1 as [H|H]; [left|right]; now apply Hincl.
Qed.

(** X3: after [Insert(p)], [p] is among the stored real prefixes that
    [dumpPfxs] lists, or the trie is exactly as it was and one of its
    dummy nodes carries [p]. *)
Theorem Insert_stores_or_unchanged (t : LPM) (p : Prefix) :
  In p (dumpPfxs_opt (root (Insert t p)) []) \/
  (Insert t p = t /\ In (p, true) (marks_opt (root t))).
Proof.
  destruct t as [[r|]]; unfold Insert; cbn [root].
  - destruct (insert_stores_or_unchanged r p) as [H|[H1 H2]].
    + left. now apply dumpPfxs_opt_marks.
    + right. now rewrite H1.
  - left. cbn. now left.
Qed.

(** X7: after inserting a list of canonical prefixes into an empty trie,
    each of them is among the stored real prefixes that [dumpPfxs]
    lists, unless a dummy node of the trie carries it. *)
Theorem InsertAll_stores (ps : list Prefix) (p : Prefix) :
  (forall q, In q ps -> canonical q) ->
  In p ps ->
  In p (dumpPfxs_opt (root (InsertAll ps)) []) \/
  In (p, true) (marks_opt (root (InsertAll ps))).
Proof.
  intros Hps Hp.
  destruct (fold_Insert_marks ps New Hps) as (_ & _ & Hin); [intros x []|].
  destruct (Hin p Hp) as [H|H]; [left|now right].
  now apply dumpPfxs_opt_marks.
Qed.

Lemma InsertAll_stores_witness :
  In (NewPfx 167772160 8)
     (dumpPfxs_opt (root (InsertAll [NewPfx 167772160 8; NewPfx 191134464 24])) []) \/
  In (NewPfx 167772160 8, true)
     (marks_opt (root (InsertAll [NewPfx 167772160 8; NewPfx 191134464 24]))).
Proof.
  apply InsertAll_stores.
  - intros q [<-|[<-|[]]]; [exact canonical_10_8|exact canonical_11_100_123_24].
  - now left.
Defined.

(** A prefix that coincides with a dummy is not stored by inserting it:
    10.0.0.0/7 is the dummy above 10.0.0.0/8 and 11.100.123.0/24. *)
Example insert_on_dummy :
  let t := InsertAll [NewPfx 167772160 8; NewPfx 191134464 24] in
  Insert t (NewPfx 167772160 7) = t /\
  Get (Insert t (NewPfx 167772160 7)) (NewPfx 167772160 7) false = [] /\
  LPM_ (Insert t (NewPfx 167772160 7)) (NewPfx 167772160 7) = [].
Proof. repeat split. Qed.

Lemma lpm_stored (needle : Prefix) (n : node) :
  forall res x, In x (lpm n needle res) -> In x res \/ In x (reals n).
Proof.
  induction n as [sk d p lo hi IHl IHh] using node_ind. intros res x.
  cbn [lpm reals].
  destruct (Equal p needle && negb d) eqn:E.
  - apply andb_true_iff in E as [_ E]. destruct d; [discriminate|].
    intros H. apply in_app_or in H as [H|[<-|[]]]; [now left|right; now left].
  - destruct (Contains p needle); cbn [negb]; [|auto].
    intros H.
    assert (Hhi : In x (match lo with
                        | Some c => lpm c needle (if negb d then res ++ [p] else res)
                        | None => if negb d then res ++ [p] else res
                        end)
                  \/ In x match hi with Some c => reals c | None => [] end).
    { destruct hi as [c|]; [|now left]. now apply (IHh c eq_refl). }
    destruct Hhi as [Hlo|Hhi]; [|right; rewrite !in_app_iff; auto].
    assert (Hlo' : In x (if negb d then res ++ [p] else res)
                   \/ In x match lo with Some c => reals c | None => [] end).
    { destruct lo as [c|]; [|now left]. now apply (IHl c eq_refl). }
    destruct Hlo' as [Hres|Hlo']; [|right; rewrite !in_app_iff; auto].
    destruct d; cbn [negb] in Hres; [now left|].
    apply in_app_or in Hres as [Hres|[<-|[]]]; [now left|right; now left].
Qed.

(** X8: every prefix that [LPM] returns is a stored real prefix, and it
    is the needle itself or a prefix that [Contains] accepts for the
    needle. *)
Theorem LPM_sound (t : LPM) (needle x : Prefix) :
  In x (LPM_ t needle) ->
  In x (dumpPfxs_opt (root t) []) /\
  (x = needle \/ Contains x needle = true).
Proof.
  unfold LPM_. destruct (root t) as [r|]; [|intros []]. intros H.
  split.
  - cbn [dumpPfxs_opt]. rewrite dumpPfxs_reals. cbn [app].
    apply lpm_stored in H as [[]|H]. exact H.
  - apply lpm_elements in H as [[]|H]. exact H.
Qed.

Lemma LPM_sound_witness :
  let t := InsertAll [NewPfx 167772160 8; NewPfx 167772160 10] in
  In (NewPfx 167772160 8) (dumpPfxs_opt (root t) []) /\
  (NewPfx 167772160 8 = NewPfx 167772160 32 \/
   Contains (NewPfx 167772160 8) (NewPfx 167772160 32) = true).
Proof.
  apply LPM_sound. cbn. now left.
Defined.

(** X9: the exact [Get] returns nothing or the prefix asked for, and
    then this prefix is a stored real prefix: a dummy is never
    returned. *)
Theorem Get_exact (t : LPM) (p : Prefix) :
  Get t p false = [] \/
  (Get t p false = [p] /\ In p (dumpPfxs_opt (root t) [])).
Proof.
  unfold Get. destruct (root t) as [r|]; [|now left].
  destruct (get r p) as [n|] eqn:E; [|now left].
  destruct (get_found p r n E) as (Hs & Hp & Hd).
  right. split; [now rewrite Hp|].
  cbn [dumpPfxs_opt]. rewrite dumpPfxs_reals. cbn [app].
  apply (subtree_reals n r Hs).
  destruct n as [sk d q lo hi]. cbn in Hp, Hd. subst. cbn. now left.
Qed.

End InsertFacts.

(** ** More on the decoder *)

Section NLRIFacts.
Import Packet.

(** X15: for a prefix length above 32 [decodeNLRI] takes the length
    byte and four address bytes off the buffer, and reports
    [ceil(pfxlen/8) + 1] bytes, more than the five it has read. *)
Theorem decodeNLRI_long_prefix (p a b c d : byte) (rest : list byte) :
  32 < byteZ p ->
  decodeNLRI (p :: a :: b :: c :: d :: rest)
  = (Ok ({| IP := [a; b; c; d]; Pfxlen := byteZ p |},
         ceilOctets (byteZ p) + 1), rest) /\
  5 < ceilOctets (byteZ p) + 1.
Proof.
  intros Hp. pose proof (byteZ_range p) as Hr.
  destruct (ceilOctets_range (byteZ p) ltac:(lia)) as [Hceil Hc].
  assert (H5 : 5 <= ceilOctets (byteZ p))
    by (rewrite Hceil; Z.div_mod_to_equations; lia).
  split; [|lia].
  rewrite decodeNLRI_cons. cbv zeta. rewrite Z.min_r by lia.
  reflexivity.
Qed.

Lemma decodeNLRI_long_prefix_witness :
  decodeNLRI (map B [40; 1; 2; 3; 4; 9])
  = (Ok ({| IP := map B [1; 2; 3; 4]; Pfxlen := 40 |}, 6), [B 9]) /\
  5 < ceilOctets (byteZ (B 40)) + 1.
Proof.
  apply (decodeNLRI_long_prefix (B 40) (B 1) (B 2) (B 3) (B 4) [B 9]).
  vm_compute. reflexivity.
Defined.

End NLRIFacts.

Section DecodeFacts.
Import Packet.

Variable Uint32Byte : Z -> list byte.

Lemma nofuel_decodeHeader : nofuel _decodeHeader.
Proof.
  intros buf. unfold _decodeHeader.
  destruct (bufRead _ buf) as [[marker|e|] b1]; try discriminate.
  destruct (negb (_ =? _)%nat); [discriminate|].
  destruct (negb (markerOk marker)); [discriminate|].
  destruct (bind _ _ b1) as [[[len ty]|e|] b2]; try discriminate.
  repeat match goal with
         | |- context [if ?c then _ else _] => destruct c
         end; cbn; discriminate.
Qed.

Lemma nofuel_decodeNotificationMsg : nofuel _decodeNotificationMsg.
Proof.
  unfold _decodeNotificationMsg, invalidErrCode.
  apply nofuel_bind; [apply nofuel_decode_uint8|intros code].
  apply nofuel_bind; [apply nofuel_decode_uint8|intros sub].
  repeat match goal with
         | |- nofuel (if ?c then _ else _) => destruct c
         end; first [apply nofuel_ret | apply nofuel_fail].
Qed.

Lemma nofuel_decodeOpenMsg_raw : nofuel (_decodeOpenMsg Uint32Byte).
Proof.
  unfold _decodeOpenMsg.
  apply nofuel_bind; [apply nofuel_decode_uint8|intros v].
  apply nofuel_bind; [apply nofuel_decode_uint16|intros a].
  apply nofuel_bind; [apply nofuel_decode_uint16|intros ht].
  apply nofuel_bind; [apply nofuel_decode_uint32|intros id].
  apply nofuel_bind; [apply nofuel_decode_uint8|intros opl].
  unfold validateOpen. cbn [Version BGPIdentifier].
  destruct (negb (v =? BGP4Version)); [intros buf; cbn; discriminate|].
  destruct (negb _); intros buf; cbn; discriminate.
Qed.

Lemma nofuel_decodeOpenMsg : nofuel (decodeOpenMsg Uint32Byte).
Proof.
  intros buf. unfold decodeOpenMsg.
  pose proof (nofuel_decodeOpenMsg_raw buf) as H.
  destruct (_decodeOpenMsg Uint32Byte buf) as [[m|e|] b]; cbn in *; try discriminate.
  destruct e; cbn; congruence.
Qed.

Lemma nofuel_decodeMsgBody (ty l : Z) : nofuel (decodeMsgBody Uint32Byte ty l).
Proof.
  unfold decodeMsgBody.
  destruct (ty =? OpenMsg).
  { apply nofuel_bind; [apply nofuel_decodeOpenMsg|intros; apply nofuel_ret]. }
  destruct (ty =? UpdateMsg).
  { apply nofuel_bind; [apply decodeUpdateMsg_fuel|intros; apply nofuel_ret]. }
  destruct (ty =? KeepaliveMsg); [apply nofuel_ret|].
  destruct (ty =? NotificationMsg); [|apply nofuel_fail].
  apply nofuel_bind; [apply nofuel_decodeNotificationMsg|intros; apply nofuel_ret].
Qed.

Lemma wrap_Err {A} (s : string) (m : Dec A) buf e rest :
  nofuel m -> wrap s m buf = (Err e, rest) -> e = errorString s.
Proof.
  intros Hm. unfold wrap. specialize (Hm buf).
  destruct (m buf) as [[a|e'|] b]; cbn in *; try discriminate.
  destruct e'; intros [= <- <-]; congruence.
Qed.


(** X10: whatever the buffer holds, the error that [Decode] returns is
    one built by [fmt.Errorf]: never a [BGPError], although
    [decodeHeader] and [validateOpen] produce [BGPError]s. *)
Theorem Decode_error_is_not_BGPError (buf : list byte) :
  match fst (Decode Uint32Byte buf) with
  | Err (errorString _) => True
  | Err _ => False
  | _ => True
  end.
Proof.
  unfold Decode, bind.
  destruct (wrap "Failed to decode header" decodeHeader buf) as [[hdr|e|] b1] eqn:E1.
  - destruct (wrap "Failed to decode message" _ b1) as [[body|e|] b2] eqn:E2;
      cbn; auto.
    apply wrap_Err in E2; [now subst|apply nofuel_decodeMsgBody].
  - apply wrap_Err in E1; [now subst|apply nofuel_decodeHeader].
  - cbn. auto.
Qed.

Lemma byteZ_B (z : Z) : 0 <= z <= 255 -> byteZ (B z) = z.
Proof.
  intros Hz. unfold byteZ, B.
  destruct (Byte.of_N (Z.to_N z)) as [b|] eqn:E.
  - apply Byte.to_of_N in E. rewrite E. lia.
  - apply Byte.of_N_None_iff in E. lia.
Qed.

Lemma decode_uint32_cons (b3 b2 b1 b0 : byte) (rest : list byte) :
  decode_uint32 (b3 :: b2 :: b1 :: b0 :: rest)
  = (Ok (((byteZ b3 * 256 + byteZ b2) * 256 + byteZ b1) * 256 + byteZ b0), rest).
Proof. reflexivity. Qed.

(** X11: a header cut short is answered with Cease, subcode 0: when
    fewer than 16 bytes are on the buffer, and when the marker is
    complete and good but the length and type are not all there. *)
Theorem decodeHeader_truncated (buf : list byte) :
  ((List.length buf < 16)%nat ->
   exists s, fst (_decodeHeader buf) = Err (BGPError Cease 0 s)) /\
  ((16 <= List.length buf < 19)%nat -> markerOk (firstn 16 buf) = true ->
   exists s, fst (_decodeHeader buf) = Err (BGPError Cease 0 s)).
Proof.
  split.
  - intros Hlen. unfold _decodeHeader, bufRead.
    change (Z.to_nat MarkerLen) with 16%nat.
    destruct buf as [|b buf]; [eexists; reflexivity|].
    rewrite firstn_all2 by lia.
    destruct (Nat.eqb_spec (List.length (b :: buf)) 16); [lia|].
    eexists. reflexivity.
  - intros Hlen Hmarker.
    do 16 (destruct buf as [|? buf]; [cbn [List.length] in Hlen; lia|]).
    unfold _decodeHeader, bufRead. change (Z.to_nat MarkerLen) with 16%nat.
    cbn [firstn skipn List.length Nat.eqb negb] in *. rewrite Hmarker. cbn [negb].
    destruct buf as [|x [|y [|z buf]]]; [| | |cbn [List.length] in Hlen; lia];
      eexists; reflexivity.
Qed.

(** X12: [decodeOpenMsg] does not return the error of a failed
    validation: an OPEN body whose version byte is not 4 makes
    [_decodeOpenMsg] return OpenMessageError / UnsupportedVersionNumber,
    and [decodeOpenMsg] panic. *)
Theorem decodeOpenMsg_bad_version
    (v a1 a0 h1 h0 i3 i2 i1 i0 o : byte) (rest : list byte) :
  byteZ v <> 4 ->
  let body := v :: a1 :: a0 :: h1 :: h0 :: i3 :: i2 :: i1 :: i0 :: o :: rest in
  (exists s, fst (_decodeOpenMsg Uint32Byte body)
             = Err (BGPError OpenMessageError UnsupportedVersionNumber s)) /\
  fst (decodeOpenMsg Uint32Byte body) = Panic /\
  fst (decodeMsgBody Uint32Byte OpenMsg 10 body) = Panic.
Proof.
  intros Hv body.
  assert (H : _decodeOpenMsg Uint32Byte body
              = (Err (BGPError OpenMessageError UnsupportedVersionNumber
                        "Unsupported version number"), rest)).
  { unfold _decodeOpenMsg, body, bind.
    rewrite decode_uint8_cons, decode_uint16_cons, decode_uint16_cons,
      decode_uint32_cons, decode_uint8_cons.
    unfold validateOpen. cbn [Version].
    apply Z.eqb_neq in Hv. unfold BGP4Version. now rewrite Hv. }
  split; [eexists; now rewrite H|].
  assert (H' : fst (decodeOpenMsg Uint32Byte body) = Panic)
    by (unfold decodeOpenMsg; now rewrite H).
  split; [exact H'|].
  unfold decodeMsgBody. cbn [Z.eqb OpenMsg Pos.eqb]. unfold bind.
  destruct (decodeOpenMsg Uint32Byte body) as [[m|e|] b]; cbn in H'; try discriminate.
  reflexivity.
Qed.

(** X13: a path attribute whose type code is not one of 1 to 7 makes
    [decodePathAttrs] fail. *)
Theorem decodePathAttrs_unknown_type
    (flags tc l1 l0 : byte) (rest : list byte) (tpal : Z) :
  0 < tpal -> byteZ tc = 0 \/ 7 < byteZ tc ->
  exists s,
    fst (decodePathAttrs tpal (flags :: tc :: l1 :: l0 :: rest))
    = Err (errorString s).
Proof.
  intros Htpal Htc. unfold decodePathAttrs.
  cbn [decodePathAttrs_loop List.length].
  destruct (Z.ltb_spec 0 tpal); [|lia].
  unfold bind at 1, wrap, decodePathAttrFlags, bind at 1.
  rewrite decode_uint8_cons. cbn [ret].
  unfold bind at 1. rewrite decode_uint8_cons.
  assert (Hval : forall pa, TypeCode pa = byteZ tc ->
                 decodePathAttrValue pa
                 = fail (errorString "Invalid Attribute Type Code")).
  { intros pa Hpa. unfold decodePathAttrValue. rewrite Hpa.
    unfold OriginAttr, ASPathAttr, NextHopAttr, MEDAttr, LocalPrefAttr,
      AtomicAggrAttr, AggregatorAttr.
    repeat match goal with
           | |- context [byteZ tc =? ?k] =>
             destruct (Z.eqb_spec (byteZ tc) k); [lia|]
           end.
    reflexivity. }
  unfold setLength, setTypeCode. cbn [ExtendedLength].
  destruct (isExtendedLength (byteZ flags)).
  - unfold bind at 1. unfold bind at 1. rewrite decode_uint16_cons. cbn [ret].
    unfold bind at 1. rewrite Hval by reflexivity. eexists. reflexivity.
  - unfold bind at 1. unfold bind at 1. rewrite decode_uint8_cons. cbn [ret].
    unfold bind at 1. rewrite Hval by reflexivity. eexists. reflexivity.
Qed.

Lemma decodePathAttrs_unknown_type_witness :
  exists s, fst (decodePathAttrs 3 (map B [0; 8; 0; 0])) = Err (errorString s).
Proof.
  apply (decodePathAttrs_unknown_type (B 0) (B 8) (B 0) (B 0) [] 3); [lia|].
  right. vm_compute. reflexivity.
Defined.

(** X14: the ORIGIN attribute is taken as it comes: any value byte is
    accepted, and when the value is missing from the buffer the
    attribute is returned without a value and no error is reported. *)
Theorem decodePathAttrs_origin_lenient (flags v : byte) (rest : list byte) :
  isExtendedLength (byteZ flags) = false ->
  let pa := {| PALength := 1;
               Optional := isOptional (byteZ flags);
               Transitive := isTransitive (byteZ flags);
               Partial := isPartial (byteZ flags);
               ExtendedLength := false;
               TypeCode := OriginAttr; Value := NoValue |} in
  decodePathAttrs 4 (flags :: B 1 :: B 1 :: v :: rest)
  = (Ok [setValue pa (OriginValue (byteZ v))], rest) /\
  decodePathAttrs 4 [flags; B 1; B 1] = (Ok [pa], []).
Proof.
  intros Hext. cbv zeta.
  destruct flags; vm_compute in Hext; try discriminate Hext;
    split; vm_compute; reflexivity.
Qed.

Lemma decodePathAttrs_origin_lenient_witness :
  decodePathAttrs 4 (map B [64; 1; 1; 200])
  = (Ok [{| PALength := 1; Optional := false; Transitive := true;
            Partial := false; ExtendedLength := false;
            TypeCode := 1; Value := OriginValue 200 |}], []).
Proof.
  apply (decodePathAttrs_origin_lenient (B 64) (B 200) []). reflexivity.
Defined.

Lemma decodeHeader_Ok (buf : list byte) (hdr : BGPHeader) (rest : list byte) :
  _decodeHeader buf = (Ok hdr, rest) ->
  (19 <= List.length buf)%nat /\ markerOk (firstn 16 buf) = true /\
  MinLen <= Length hdr <= MaxLen /\ 1 <= Type_ hdr <= KeepaliveMsg.
Proof.
  intros H.
  destruct buf as [|m1 [|m2 [|m3 [|m4 [|m5 [|m6 [|m7 [|m8 [|m9 [|m10 [|m11 [|m12 [|m13 [|m14 [|m15 [|m16 [|hi [|lo [|ty rest']]]]]]]]]]]]]]]]]]];
    try (exfalso; cbn in H;
         repeat match type of H with
                | context [if ?c then _ else _] => destruct c
                end; discriminate H).
  change (_decodeHeader ([m1; m2; m3; m4; m5; m6; m7; m8; m9; m10; m11; m12; m13; m14; m15; m16] ++ hi :: lo :: ty :: rest') = (Ok hdr, rest)) in H.
  rewrite decodeHeader_unfold in H by reflexivity.
  cbn [firstn].
  destruct (markerOk [m1; m2; m3; m4; m5; m6; m7; m8; m9; m10; m11; m12; m13; m14; m15; m16]); [|discriminate H].
  cbn [negb] in H. cbv zeta in H.
  destruct (_ || _) eqn:Hl in H; [discriminate H|].
  destruct (_ || _) eqn:Ht in H; [discriminate H|].
  injection H as <- <-. cbn [Length Type_ List.length].
  pose proof (byteZ_range ty).
  apply orb_false_iff in Hl as [Hl1 Hl2], Ht as [Ht1 Ht2].
  apply Z.ltb_ge in Hl1. rewrite Z.gtb_ltb in Hl2, Ht1.
  apply Z.ltb_ge in Hl2, Ht1. apply Z.eqb_neq in Ht2.
  repeat split; try lia.
Qed.

Lemma validateOpen_None (m : BGPOpen) :
  validateOpen Uint32Byte m = None ->
  Version m = BGP4Version /\ isValidIdentifier Uint32Byte (BGPIdentifier m) = true.
Proof.
  unfold validateOpen.
  destruct (Z.eqb_spec (Version m) BGP4Version) as [E|_]; [|discriminate].
  cbn [negb]. destruct (isValidIdentifier _ _); [|discriminate].
  now split.
Qed.

Lemma decodeOpenMsg_Ok (buf : list byte) (m : BGPOpen) (rest : list byte) :
  decodeOpenMsg Uint32Byte buf = (Ok m, rest) ->
  Version m = BGP4Version /\ isValidIdentifier Uint32Byte (BGPIdentifier m) = true.
Proof.
  unfold decodeOpenMsg.
  destruct (_decodeOpenMsg Uint32Byte buf) as [[m'|e|] b] eqn:E;
    [|destruct e; discriminate|discriminate].
  intros [= -> ->]. unfold _decodeOpenMsg in E.
  apply bind_Ok in E as (v & b1 & _ & E).
  apply bind_Ok in E as (a & b2 & _ & E).
  apply bind_Ok in E as (ht & b3 & _ & E).
  apply bind_Ok in E as (id & b4 & _ & E).
  apply bind_Ok in E as (opl & b5 & _ & E).
  destruct (validateOpen _ _) eqn:V; [discriminate E|].
  injection E as <- _. now apply validateOpen_None.
Qed.

(** X27: what [Decode] returns without an error is well formed.  The
    buffer held at least the 19 bytes of a header with a marker of
    sixteen 0xff; the length of the header is between 19 and 4096; the
    body is of the kind that the type of the header names, so that the
    type assertions of the FSM on the body of an OPEN or an UPDATE do
    not fail; and an OPEN has version 4 and an identifier that passes
    [isValidIdentifier]. *)
Theorem Decode_Ok_wellformed (buf : list byte) (msg : BGPMessage)
    (rest : list byte) :
  Decode Uint32Byte buf = (Ok msg, rest) ->
  (19 <= List.length buf)%nat /\ markerOk (firstn 16 buf) = true /\
  19 <= Length (Header msg) <= 4096 /\
  match MsgBody msg with
  | BodyOpen m =>
    Type_ (Header msg) = OpenMsg /\ Version m = 4 /\
    isValidIdentifier Uint32Byte (BGPIdentifier m) = true
  | BodyUpdate _ => Type_ (Header msg) = UpdateMsg
  | BodyNotification _ => Type_ (Header msg) = NotificationMsg
  | BodyNil => Type_ (Header msg) = KeepaliveMsg
  end.
Proof.
  unfold Decode. intros H.
  apply bind_Ok in H as (hdr & b1 & Hhdr & H).
  apply bind_Ok in H as (body & b2 & Hbody & H).
  injection H as <- <-. cbn [Header MsgBody].
  apply wrap_Ok in Hhdr, Hbody.
  destruct (decodeHeader_Ok _ _ _ Hhdr) as (Hlen & Hmarker & Hl & Hty).
  split; [exact Hlen|]. split; [exact Hmarker|]. split; [exact Hl|].
  unfold decodeMsgBody in Hbody.
  destruct (Z.eqb_spec (Type_ hdr) OpenMsg) as [E1|_].
  { apply bind_Ok in Hbody as (m & b3 & Hm & H). injection H as <- _.
    split; [exact E1|]. now apply decodeOpenMsg_Ok in Hm. }
  destruct (Z.eqb_spec (Type_ hdr) UpdateMsg) as [E2|_].
  { apply bind_Ok in Hbody as (m & b3 & _ & H). injection H as <- _. exact E2. }
  destruct (Z.eqb_spec (Type_ hdr) KeepaliveMsg) as [E3|_].
  { injection Hbody as <- _. exact E3. }
  destruct (Z.eqb_spec (Type_ hdr) NotificationMsg) as [E4|_]; [|discriminate Hbody].
  apply bind_Ok in Hbody as (m & b3 & _ & H). injection H as <- _. exact E4.
Qed.

End DecodeFacts.

Lemma Decode_Ok_wellformed_witness :
  Packet.markerOk (firstn 16 (map B Packet.EncodeKeepaliveMsg)) = true /\
  Packet.Type_ {| Packet.Length := 19; Packet.Type_ := 4 |} = Packet.KeepaliveMsg.
Proof.
  destruct (Decode_Ok_wellformed be32bytes (map B Packet.EncodeKeepaliveMsg)
              {| Packet.Header := {| Packet.Length := 19; Packet.Type_ := 4 |};
                 Packet.MsgBody := Packet.BodyNil |} [] eq_refl)
    as (_ & H1 & _ & H2).
  split; [exact H1|exact H2].
Defined.

Lemma decodeHeader_truncated_witness :
  exists s,
    fst (Packet._decodeHeader (map B (repeat 255 16 ++ [0; 19])))
    = Packet.Err (Packet.BGPError Packet.Cease 0 s).
Proof.
  apply (proj2 (decodeHeader_truncated (map B (repeat 255 16 ++ [0; 19]))));
    [cbn; lia|reflexivity].
Defined.

Lemma decodeOpenMsg_bad_version_witness :
  fst (Packet.decodeOpenMsg be32bytes (map B [3; 1; 1; 0; 15; 10; 10; 10; 11; 0]))
  = Packet.Panic.
Proof.
  apply (decodeOpenMsg_bad_version be32bytes (B 3) (B 1) (B 1) (B 0) (B 15)
           (B 10) (B 10) (B 10) (B 11) (B 0) []).
  vm_compute. discriminate.
Defined.

Section RoundTrip.
Import Packet.

Variable Uint32Byte : Z -> list byte.

Lemma Decode_notification_bytes (m : BGPNotification) :
  notification_valid (ErrorCode m) (ErrorSubcode m) = true ->
  Decode Uint32Byte (map B (EncodeNotificationMsg m))
  = (Ok {| Header := {| Length := 21; Type_ := NotificationMsg |};
           MsgBody := BodyNotification m |}, []).
Proof.
  destruct m as [c s]. cbn [ErrorCode ErrorSubcode]. intros H.
  assert (Hb : 1 <= c <= 6 /\ 0 <= s <= 11).
  { unfold notification_valid in H.
    rewrite !orb_true_iff, !andb_true_iff, !Z.eqb_eq, !Z.leb_le in H. lia. }
  assert (Hc : c = 1 \/ c = 2 \/ c = 3 \/ c = 4 \/ c = 5 \/ c = 6) by lia.
  assert (Hs : s = 0 \/ s = 1 \/ s = 2 \/ s = 3 \/ s = 4 \/ s = 5 \/ s = 6 \/
               s = 7 \/ s = 8 \/ s = 9 \/ s = 10 \/ s = 11) by lia.
  clear Hb.
  destruct Hc as [ -> | [ -> | [ -> | [ -> | [ -> | -> ]]]]];
    destruct Hs as [ -> | [ -> | [ -> | [ -> | [ -> | [ -> | [ -> | [ -> | [ -> | [ -> | [ -> | -> ]]]]]]]]]]];
    vm_compute in H; try discriminate H; reflexivity.
Qed.

(** X16: a KEEPALIVE and every NOTIFICATION whose code and subcode are
    in the validity table decode to what was encoded, with the header
    of length 19 or 21, and nothing is left on the buffer. *)
Theorem Decode_Encode_Notification (m : BGPNotification) :
  notification_valid (ErrorCode m) (ErrorSubcode m) = true ->
  Decode Uint32Byte (map B (EncodeNotificationMsg m))
  = (Ok {| Header := {| Length := 21; Type_ := NotificationMsg |};
           MsgBody := BodyNotification m |}, []) /\
  Decode Uint32Byte (map B EncodeKeepaliveMsg)
  = (Ok {| Header := {| Length := 19; Type_ := KeepaliveMsg |};
           MsgBody := BodyNil |}, []).
Proof.
  intros H. split; [now apply Decode_notification_bytes|reflexivity].
Qed.

Lemma be16_decode (x : Z) :
  0 <= x < 65536 ->
  byteZ (B (x / 256 mod 256)) * 256 + byteZ (B (x mod 256)) = x.
Proof.
  intros Hx. rewrite !byteZ_B by (Z.div_mod_to_equations; lia).
  Z.div_mod_to_equations. lia.
Qed.

Lemma be32_decode (x : Z) :
  0 <= x < 4294967296 ->
  ((byteZ (B (x / 16777216 mod 256)) * 256 + byteZ (B (x / 65536 mod 256))) * 256
   + byteZ (B (x / 256 mod 256))) * 256 + byteZ (B (x mod 256)) = x.
Proof.
  intros Hx. rewrite !byteZ_B by (Z.div_mod_to_equations; lia).
  Z.div_mod_to_equations. lia.
Qed.

Lemma Decode_open_bytes (m : BGPOpen) :
  Version m = 4 ->
  0 <= AS m < 65536 -> 0 <= HoldTime m < 65536 ->
  0 <= BGPIdentifier m < 4294967296 ->
  OptParmLen m = 0 ->
  isValidIdentifier Uint32Byte (BGPIdentifier m) = true ->
  Decode Uint32Byte (map B (EncodeOpenMsg m))
  = (Ok {| Header := {| Length := 29; Type_ := OpenMsg |};
           MsgBody := BodyOpen m |}, []).
Proof.
  destruct m as [v a ht id opl]. cbn [Version AS HoldTime BGPIdentifier OptParmLen].
  intros -> Ha Hht Hid -> Hvalid.
  unfold EncodeOpenMsg, encodeHeader. cbn [Version AS HoldTime BGPIdentifier].
  rewrite !map_app.
  unfold Decode, bind at 1, wrap at 1, decodeHeader.
  cbn [map be16 be32 app].
  rewrite <- app_assoc. cbn [app].
  rewrite decodeHeader_unfold by reflexivity.
  change (markerOk (map B (repeat 255 16))) with true. cbv iota beta zeta.
  cbn [negb].
  change (byteZ (B (29 / 256 mod 256)) * 256 + byteZ (B (29 mod 256))) with 29.
  change (byteZ (B OpenMsg)) with 1.
  cbv iota beta zeta.
  change ((29 <? MinLen) || (29 >? MaxLen)) with false.
  change ((1 >? KeepaliveMsg) || (1 =? 0)) with false.
  cbv iota beta.
  cbn [Type_ Length]. unfold decodeMsgBody. change (1 =? OpenMsg) with true.
  cbv iota.
  assert (Hopen : decodeOpenMsg Uint32Byte
                    (B 4 :: B (a / 256 mod 256) :: B (a mod 256)
                     :: B (ht / 256 mod 256) :: B (ht mod 256)
                     :: B (id / 16777216 mod 256) :: B (id / 65536 mod 256)
                     :: B (id / 256 mod 256) :: B (id mod 256) :: [B 0])
                  = (Ok {| Version := 4; AS := a; HoldTime := ht;
                           BGPIdentifier := id; OptParmLen := 0 |}, [])).
  { unfold decodeOpenMsg, _decodeOpenMsg, bind.
    rewrite decode_uint8_cons, decode_uint16_cons, decode_uint16_cons,
      decode_uint32_cons, decode_uint8_cons.
    rewrite !be16_decode, be32_decode by assumption.
    change (byteZ (B 4)) with 4. change (byteZ (B 0)) with 0.
    unfold validateOpen. cbn [Version BGPIdentifier]. rewrite Hvalid.
    reflexivity. }
  unfold bind, wrap. rewrite Hopen. reflexivity.
Qed.

(** X17: an OPEN of version 4 whose fields fit their widths, whose
    optional-parameter length is 0 and whose identifier passes
    [isValidIdentifier] decodes to what was encoded, with the header of
    length 29, and nothing is left on the buffer. *)
Theorem Decode_Encode_Open (m : BGPOpen) :
  Version m = 4 ->
  0 <= AS m < 65536 -> 0 <= HoldTime m < 65536 ->
  0 <= BGPIdentifier m < 4294967296 ->
  OptParmLen m = 0 ->
  isValidIdentifier Uint32Byte (BGPIdentifier m) = true ->
  Decode Uint32Byte (map B (EncodeOpenMsg m))
  = (Ok {| Header := {| Length := 29; Type_ := OpenMsg |};
           MsgBody := BodyOpen m |}, []).
Proof. apply Decode_open_bytes. Qed.

End RoundTrip.

Lemma Decode_Encode_Notification_witness :
  Packet.Decode be32bytes
    (map B (Packet.EncodeNotificationMsg
              {| Packet.ErrorCode := 6; Packet.ErrorSubcode := 0 |}))
  = (Packet.Ok
       {| Packet.Header := {| Packet.Length := 21; Packet.Type_ := 3 |};
          Packet.MsgBody :=
            Packet.BodyNotification
              {| Packet.ErrorCode := 6; Packet.ErrorSubcode := 0 |} |}, []).
Proof.
  apply (Decode_Encode_Notification be32bytes
           {| Packet.ErrorCode := 6; Packet.ErrorSubcode := 0 |}).
  reflexivity.
Defined.

Lemma Decode_Encode_Open_witness :
  let m := {| Packet.Version := 4; Packet.AS := 65000; Packet.HoldTime := 90;
              Packet.BGPIdentifier := 167772161; Packet.OptParmLen := 0 |} in
  Packet.Decode be32bytes (map B (Packet.EncodeOpenMsg m))
  = (Packet.Ok
       {| Packet.Header := {| Packet.Length := 29; Packet.Type_ := 1 |};
          Packet.MsgBody := Packet.BodyOpen m |}, []).
Proof.
  intros m. apply (Decode_Encode_Open be32bytes m); cbn; try lia; reflexivity.
Defined.

(** ** More on the peer FSM *)

Section IdleFacts.
Import Packet Server Peer.


(** X24: Idle is left on [ManualStart] and [AutomaticStart] only.  Then
    the connect-retry counter is 0 and the connect-retry timer is
    started; a passive peer goes to Active, and any other peer asks for
    a TCP connection and goes to Connect.  On every other input the
    loop goes on, and the only thing it does is to close a connection
    that comes in. *)
Theorem idle_leaves_on_start (f : FSM) (i : input) :
  match idle f i with
  | Return n f' =>
    (i = InEvent ManualStart \/ i = InEvent AutomaticStart) /\
    n = (if passive f then Active else Connect) /\
    connectRetryCounter f' = 0 /\
    effects f' = effects f ++ TimerNew connectRetryTimer (connectRetryTime f)
                   :: (if passive f then [] else [InitiateCon])
  | Continue f' =>
    i <> InEvent ManualStart /\ i <> InEvent AutomaticStart /\
    connectRetryCounter f' = connectRetryCounter f /\
    passive f' = passive f /\
    effects f' = effects f ++ match i with InCon c => [ConClose c] | _ => [] end
  | Crash => False
  end.
Proof.
  destruct f as [sr st ls k1 k2 pa la ni ri crt crc htc ht kt rib effs].
  destruct i as [e| | | |c|msg c|c]; cbn [idle];
    try (cbn; rewrite ?app_nil_r; repeat split; discriminate).
  destruct (Z.eqb_spec e ManualStart) as [->|H1];
    [|destruct (Z.eqb_spec e AutomaticStart) as [->|H2]]; cbn [orb].
  - destruct pa; cbn; rewrite <- ?app_assoc; repeat split; auto.
  - destruct pa; cbn; rewrite <- ?app_assoc; repeat split; auto.
  - cbn. rewrite app_nil_r. repeat split; congruence.
Qed.



End IdleFacts.

Section PeerFacts.
Import Packet Server Peer.

Variable Uint32Byte : Z -> list byte.
Variable Uint32b : list byte -> Z.
Variable Remove : LPM.LPM -> Net.Prefix -> LPM.LPM.
Variable CCR : Z.
Variable localIs179 : conn -> bool.

Ltac split_outcome H :=
  repeat (match type of H with
          | context [match ?x with _ => _ end] => destruct x eqn:?
          end; cbv beta iota zeta in H).

(** X18: the transitions of the FSM.  When a turn of a state function
    returns, the state it returns is the one it has recorded, it is
    never [Cease] (so the [Cease] case of [fsm.main()] is never
    reached), and it is one of: Idle to Connect or Active; Connect to
    Idle or OpenSent; Active to Active, Connect, Idle or OpenSent;
    OpenSent to Idle, Active or OpenConfirm; OpenConfirm to Idle or
    Established; Established to Idle. *)
Theorem turn_transitions (s : Z) (f : FSM) (i : input) (wr : bool)
    (n : Z) (f' : FSM) :
  turn Uint32Byte CCR localIs179 Uint32b Remove s f i wr = Some (Return n f') ->
  state f' = n /\ n <> Server.Cease /\
  (s = Idle -> n = Connect \/ n = Active) /\
  (s = Connect -> n = Idle \/ n = OpenSent) /\
  (s = Active -> n = Active \/ n = Connect \/ n = Idle \/ n = OpenSent) /\
  (s = OpenSent -> n = Idle \/ n = Active \/ n = OpenConfirm) /\
  (s = OpenConfirm -> n = Idle \/ n = Established) /\
  (s = Established -> n = Idle).
Proof.
  unfold turn. intros H.
  destruct (Z.eqb_spec s Idle) as [->|_]; [|
  destruct (Z.eqb_spec s Connect) as [->|_]; [|
  destruct (Z.eqb_spec s Active) as [->|_]; [|
  destruct (Z.eqb_spec s OpenSent) as [->|_]; [|
  destruct (Z.eqb_spec s OpenConfirm) as [->|_]; [|
  destruct (Z.eqb_spec s Established) as [->|_]; [|discriminate H]]]]]];
  injection H as H.
  all: unfold idle, connect, connectSendOpen, active, activeSendOpen,
         openSent, openConfirm, established, manualStop, teardownAll, teardown,
         secondConnection, receiveFailed, decodeFailed, openSentTCPFail,
         openConfirmTCPFail, returnState in H.
  all: split_outcome H; try discriminate H.
  all: injection H as <- <-.
  all: (split; [reflexivity|]); (split; [discriminate|]).
  all: repeat split; intros E; try discriminate E; auto.
Qed.



(** X21: [resolveCollision] with two connections.  It closes only a
    connection for which [fsm.dumpCon] holds; when that holds for the
    first connection, the first is closed and the second becomes
    [fsm.con]; when it holds for the second only, the second is closed
    and the first stays; when it holds for neither, nothing happens. *)
Theorem resolveCollision_closes_dumped (f : FSM) (c1 c2 : conn) :
  con f = Some c1 -> con2 f = Some c2 ->
  exists f',
    resolveCollision CCR localIs179 f = Some f' /\
    (forall c, In (ConClose c) (effects f') ->
       In (ConClose c) (effects f) \/
       ((c = c1 \/ c = c2) /\ fsm_dumpCon localIs179 f c = true)) /\
    (fsm_dumpCon localIs179 f c1 = true ->
       con f' = Some c2 /\ In (ConClose c1) (effects f')) /\
    (fsm_dumpCon localIs179 f c1 = false ->
     fsm_dumpCon localIs179 f c2 = true ->
       con f' = Some c1 /\ In (ConClose c2) (effects f')) /\
    (fsm_dumpCon localIs179 f c1 = false ->
     fsm_dumpCon localIs179 f c2 = false -> f' = f).
Proof.
  destruct f as [sr st ls k1 k2 pa la ni ri crt crc htc ht kt rib effs].
  cbn [con con2]. intros -> ->.
  unfold resolveCollision, fsm_dumpCon, isPassive, dumpCon.
  cbn [con con2 routerID neighborID sendNotification close].
  destruct (ri >? ni), (localIs179 c1) eqn:E1, (localIs179 c2) eqn:E2;
    cbn [negb]; eexists; (split; [reflexivity|]); cbn;
    (split; [intros c Hc; rewrite ?in_app_iff in Hc; cbn in Hc;
             repeat match goal with
                    | H : _ \/ _ |- _ => destruct H
                    | H : False |- _ => destruct H
                    | H : ConClose _ = ConClose _ |- _ => injection H as <-
                    | H : ConWrite _ _ = ConClose _ |- _ => discriminate H
                    end;
             rewrite ?E1, ?E2; auto|]);
    repeat split; intros; try discriminate;
    rewrite ?in_app_iff; cbn; auto.
Qed.



Lemma Decode_BodyUpdate_type (bytes : list byte) hdr u rest :
  Decode Uint32Byte bytes = (Ok {| Header := hdr; MsgBody := BodyUpdate u |}, rest) ->
  Type_ hdr = UpdateMsg.
Proof.
  unfold Decode. intros H.
  apply bind_Ok in H as (h & b1 & _ & H).
  apply bind_Ok in H as (body & b2 & Hbody & H).
  injection H as -> -> _. apply wrap_Ok in Hbody.
  unfold decodeMsgBody in Hbody.
  destruct (Type_ hdr =? OpenMsg).
  { apply bind_Ok in Hbody as (m & b3 & _ & H). discriminate H. }
  destruct (Z.eqb_spec (Type_ hdr) UpdateMsg) as [E|_]; [exact E|].
  destruct (Type_ hdr =? KeepaliveMsg); [discriminate Hbody|].
  destruct (Type_ hdr =? NotificationMsg); [|discriminate Hbody].
  apply bind_Ok in Hbody as (m & b3 & _ & H). discriminate H.
Qed.

Lemma fold_left_toPfx (rs : list NLRI) : forall t,
  fold_left (fun t r => LPM.Insert t (toPfx Uint32b r)) rs t
  = fold_left LPM.Insert (map (toPfx Uint32b) rs) t.
Proof. induction rs as [|r rs IH]; intros t; cbn; [reflexivity|apply IH]. Qed.

(** X26: an UPDATE without withdrawn routes, received in Established.
    The loop goes on, nothing that the Adj-RIB-In stored is lost, and
    each announced prefix is stored, unless a dummy node of the trie
    carries it; provided the prefixes of the trie and of the message
    are canonical. *)
Theorem established_UPDATE_stores (f : FSM) (bytes : list byte) (c : conn)
    (wr : bool) hdr u rest (t : LPM.LPM) (r : NLRI) :
  Decode Uint32Byte bytes = (Ok {| Header := hdr; MsgBody := BodyUpdate u |}, rest) ->
  WithdrawnRoutes u = [] ->
  adjRibIn f = Some t ->
  (forall x, In x (marks_opt (LPM.root t)) -> canonical (fst x)) ->
  (forall q, In q (NLRIs u) -> canonical (toPfx Uint32b q)) ->
  In r (NLRIs u) ->
  exists f' t',
    established Uint32Byte Uint32b Remove CCR f (InMsgRecv bytes c) wr
    = Continue f' /\
    adjRibIn f' = Some t' /\
    (forall q, In q (LPM.dumpPfxs_opt (LPM.root t) []) ->
               In q (LPM.dumpPfxs_opt (LPM.root t') [])) /\
    (In (toPfx Uint32b r) (LPM.dumpPfxs_opt (LPM.root t') []) \/
     In (toPfx Uint32b r, true) (marks_opt (LPM.root t'))).
Proof.
  intros Hdec Hw Hrib Hcan Hps Hr.
  pose proof (Decode_BodyUpdate_type _ _ _ _ Hdec) as Hty.
  unfold established. rewrite Hdec. cbv beta iota zeta.
  cbn [Type_ Header MsgBody]. rewrite Hty.
  change (UpdateMsg =? NotificationMsg) with false.
  change (UpdateMsg =? UpdateMsg) with true. cbv beta iota.
  assert (Hrib' : adjRibIn (if negb (holdTime f =? 0)
                            then do f (TimerReset holdTimer (holdTime f)) else f)
                  = Some t).
  { destruct (negb _); [cbn [adjRibIn do]|]; exact Hrib. }
  rewrite Hrib'.
  unfold applyUpdate. rewrite Hw. cbn [fold_left]. rewrite fold_left_toPfx.
  destruct (fold_Insert_marks (map (toPfx Uint32b) (NLRIs u)) t)
    as (_ & Hincl & Hin).
  { intros p Hp. apply in_map_iff in Hp as (q & <- & Hq). now apply Hps. }
  { exact Hcan. }
  eexists _, _. split; [reflexivity|]. split; [reflexivity|].
  split.
  - intros q Hq. apply dumpPfxs_opt_marks. apply Hincl.
    now apply dumpPfxs_opt_marks.
  - destruct (Hin (toPfx Uint32b r)) as [H|H]; [now apply in_map|left|now right].
    now apply dumpPfxs_opt_marks.
Qed.

Lemma Decode_Ok_body_type (bytes : list byte) msg rest :
  Decode Uint32Byte bytes = (Ok msg, rest) ->
  match MsgBody msg with
  | BodyOpen _ => Type_ (Header msg) = OpenMsg
  | BodyUpdate _ => Type_ (Header msg) = UpdateMsg
  | BodyNotification _ => Type_ (Header msg) = NotificationMsg
  | BodyNil => Type_ (Header msg) = KeepaliveMsg
  end.
Proof.
  unfold Decode. intros H.
  apply bind_Ok in H as (hdr & b1 & _ & H).
  apply bind_Ok in H as (body & b2 & Hbody & H).
  injection H as <- <-. cbn [Header MsgBody].
  apply wrap_Ok in Hbody. unfold decodeMsgBody in Hbody.
  destruct (Z.eqb_spec (Type_ hdr) OpenMsg) as [E1|_].
  { apply bind_Ok in Hbody as (m & b3 & _ & H). injection H as <- _. exact E1. }
  destruct (Z.eqb_spec (Type_ hdr) UpdateMsg) as [E2|_].
  { apply bind_Ok in Hbody as (m & b3 & _ & H). injection H as <- _. exact E2. }
  destruct (Z.eqb_spec (Type_ hdr) KeepaliveMsg) as [E3|_].
  { injection Hbody as <- _. exact E3. }
  destruct (Z.eqb_spec (Type_ hdr) NotificationMsg) as [E4|_]; [|discriminate Hbody].
  apply bind_Ok in Hbody as (m & b3 & _ & H). injection H as <- _. exact E4.
Qed.

(** X28: the FSM panics on a received message only when [Decode] does.
    In Established with an Adj-RIB-In, and in OpenSent with a first
    connection, no message makes the state function panic unless
    [Decode] itself panics on it: the type assertions on the body
    agree with the type of the header. *)
Theorem panics_only_in_Decode (f : FSM) (bytes : list byte) (c c1 : conn)
    (wr : bool) (t : LPM.LPM) :
  adjRibIn f = Some t -> con f = Some c1 ->
  (established Uint32Byte Uint32b Remove CCR f (InMsgRecv bytes c) wr = Crash ->
   fst (Decode Uint32Byte bytes) = Panic) /\
  (openSent Uint32Byte CCR localIs179 f (InMsgRecv bytes c) wr = Crash ->
   fst (Decode Uint32Byte bytes) = Panic).
Proof.
  intros Hrib Hcon.
  assert (Hrib' : forall b e, adjRibIn (if b : bool then do f e else f) = Some t).
  { intros [|] e; [cbn [adjRibIn do]|]; exact Hrib. }
  split; intros H.
  - unfold established in H.
    destruct (Decode Uint32Byte bytes) as [[msg|e|] rest] eqn:E;
      [|discriminate H|reflexivity].
    exfalso. pose proof (Decode_Ok_body_type _ _ _ E) as Hb.
    cbv zeta in H. rewrite Hrib' in H.
    unfold teardown, returnState in H.
    repeat match type of H with
           | context [if (?a =? ?b) then _ else _] =>
             destruct (Z.eqb_spec a b)
           end; try discriminate H.
    + destruct (MsgBody msg); try discriminate H;
        unfold OpenMsg, UpdateMsg, NotificationMsg, KeepaliveMsg in *; lia.
    + destruct (_ && _); discriminate H.
  - unfold openSent in H.
    destruct (Decode Uint32Byte bytes) as [[msg|e|] rest] eqn:E;
      [|discriminate H|reflexivity].
    exfalso. pose proof (Decode_Ok_body_type _ _ _ E) as Hb.
    cbv zeta in H.
    destruct (Z.eqb_spec (Type_ (Header msg)) NotificationMsg) as [E1|_].
    { destruct (MsgBody msg) as [m|m|m|];
        try (unfold OpenMsg, UpdateMsg, NotificationMsg, KeepaliveMsg in *; lia).
      unfold teardownAll, returnState in H.
      destruct (_ =? _); [discriminate H|].
      destruct (_ && _); discriminate H. }
    destruct (Z.eqb_spec (Type_ (Header msg)) OpenMsg) as [E2|_];
      [|discriminate H].
    destruct (MsgBody msg) as [m|m|m|];
      try (unfold OpenMsg, UpdateMsg, NotificationMsg, KeepaliveMsg in *; lia).
    destruct (resolveCollision CCR localIs179 (set_neighborID f (BGPIdentifier m)))
      as [f1|] eqn:Er.
    + destruct (sendKeepalive _ wr) as [f2 ok].
      unfold openSentTCPFail, returnState in H.
      destruct (negb ok); discriminate H.
    + unfold resolveCollision, isPassive in Er.
      cbn [con con2 set_neighborID] in Er. rewrite Hcon in Er.
      repeat match type of Er with
             | context [match ?x with _ => _ end] => destruct x
             end; discriminate Er.
Qed.

End PeerFacts.

Lemma turn_transitions_witness :
  exists n f',
    Peer.turn be32bytes 7 accepted be32value (fun t _ => t) Server.Idle
      (Peer.NewFSM 90 30 167772161 65001) (Server.InEvent Server.ManualStart) true
    = Some (Server.Return n f') /\
    Server.state f' = n /\ n <> Server.Cease /\ n = Server.Active.
Proof.
  eexists _, _. split; [reflexivity|].
  destruct (turn_transitions be32bytes be32value (fun t _ => t) 7 accepted
              Server.Idle (Peer.NewFSM 90 30 167772161 65001)
              (Server.InEvent Server.ManualStart) true _ _ eq_refl)
    as (H1 & H2 & _).
  split; [exact H1|]. split; [exact H2|reflexivity].
Defined.


Lemma resolveCollision_closes_dumped_witness :
  exists f',
    Peer.resolveCollision 7 accepted (Server.set_con2 examplePeer (Some 2%nat))
    = Some f' /\
    Server.con f' = Some 2%nat /\
    In (Server.ConClose 1%nat) (Server.effects f').
Proof.
  destruct (resolveCollision_closes_dumped 7 accepted
              (Server.set_con2 examplePeer (Some 2%nat)) 1%nat 2%nat
              eq_refl eq_refl)
    as (f' & H & _ & H1 & _).
  exists f'. split; [exact H|]. apply H1. reflexivity.
Defined.



Lemma established_UPDATE_stores_witness :
  exists f' t',
    Server.established be32bytes be32value (fun t _ => t) 7
      (Server.established_enter examplePeer)
      (Server.InMsgRecv announce11 1%nat) true
    = Server.Continue f' /\
    Server.adjRibIn f' = Some t' /\
    (In (Net.NewPfx 184549376 8) (LPM.dumpPfxs_opt (LPM.root t') []) \/
     In (Net.NewPfx 184549376 8, true) (marks_opt (LPM.root t'))).
Proof.
  pose (r := {| Packet.IP := map B [11; 0; 0; 0]; Packet.Pfxlen := 8 |}).
  destruct (established_UPDATE_stores be32bytes be32value (fun t _ => t) 7
              (Server.established_enter examplePeer) announce11 1%nat true
              {| Packet.Length := 25; Packet.Type_ := 2 |}
              {| Packet.WithdrawnRoutesLen := 0; Packet.WithdrawnRoutes := [];
                 Packet.TotalPathAttrLen := 0; Packet.PathAttributes := [];
                 Packet.NLRIs := [r] |}
              [] LPM.New r)
    as (f' & t' & H1 & H2 & _ & H3).
  - reflexivity.
  - reflexivity.
  - reflexivity.
  - intros x [].
  - intros q [<-|[]]. unfold canonical. cbn. lia.
  - now left.
  - exists f', t'. split; [exact H1|]. split; [exact H2|exact H3].
Defined.

Lemma panics_only_in_Decode_witness :
  fst (Packet.Decode be32bytes openVersion3) = Packet.Panic.
Proof.
  apply (proj1 (panics_only_in_Decode be32bytes be32value (fun t _ => t) 7
                  accepted (Server.established_enter examplePeer) openVersion3
                  1%nat 1%nat true LPM.New eq_refl eq_refl)).
  reflexivity.
Defined.
